(** * memoryfs: the directory node of an in-memory filesystem (dir.go)

    A Go [*dir] is a pointer into the heap; the two child maps of a directory
    hold pointers to further nodes.  The development models that heap
    explicitly (a store of directory nodes and a store of file nodes, both
    addressed by pointers), the methods of [*dir] as computations in a small
    state-and-error monad over the store, and the recursion of every method
    on its path string exactly as the source has it: split the path on the
    separator, look at the first segment, recurse on the re-joined rest. *)

From Stdlib Require Import String Ascii List Lia ZArith Permutation Sorted.
From stdpp Require Import gmap strings list fin_maps sorting.
From Equations Require Import Equations.

Open Scope string_scope.

(* ===================================================================== *)
(** ** Paths: [strings.Split] and [strings.Join] on the separator *)
(* ===================================================================== *)

Module Path.

(** [var separator = "/"]: one byte. *)
Definition separator : ascii := "/"%char.

(** [strings.Split(s, sep)] for a one-byte separator: the substrings between
    the occurrences of [sep]; never empty ([Split "" sep = [""]]). *)
Fixpoint Split (s : string) (sep : ascii) : list string :=
  match s with
  | EmptyString => [EmptyString]
  | String c s' =>
      if Ascii.eqb c sep then EmptyString :: Split s' sep
      else match Split s' sep with
           | h :: t => String c h :: t
           | [] => [String c EmptyString]
           end
  end.

(** [strings.Join(elems, sep)]. *)
Fixpoint Join (elems : list string) (sep : ascii) : string :=
  match elems with
  | [] => EmptyString
  | x :: rest =>
      match rest with
      | [] => x
      | _ :: _ => x ++ String sep (Join rest sep)
      end
  end.

(** [parts[0]] of [parts := strings.Split(path, separator)]. *)
Definition first (path : string) : string :=
  hd EmptyString (Split path separator).

(** [strings.Join(parts[1:], separator)]. *)
Definition rest (path : string) : string :=
  Join (tail (Split path separator)) separator.

(** [len(parts) == 1]. *)
Definition single (path : string) : Prop :=
  length (Split path separator) = 1.

#[global] Instance single_dec path : Decision (single path).
Proof. unfold single. apply _. Defined.

(** A segment: a string without separator, the shape of every element that
    [Split] returns. *)
Definition segment (x : string) : Prop := Split x separator = [x].

(** *** The rest of a path is shorter than the path *)

Lemma Split_cons s sep : exists h t, Split s sep = h :: t.
Proof.
  destruct s as [|c s]; simpl; [eauto|].
  destruct (Ascii.eqb c sep); [eauto|].
  destruct (Split s sep); eauto.
Qed.

Lemma Split_String c s sep :
  Split (String c s) sep =
  if Ascii.eqb c sep then "" :: Split s sep
  else String c (hd "" (Split s sep)) :: tail (Split s sep).
Proof.
  simpl. destruct (Ascii.eqb c sep); [reflexivity|].
  destruct (Split_cons s sep) as (h & t & ->). reflexivity.
Qed.

Lemma Join_cons x l sep :
  Join (x :: l) sep = match l with [] => x | _ :: _ => x ++ String sep (Join l sep) end.
Proof. reflexivity. Qed.

Lemma Join_Split s sep : Join (Split s sep) sep = s.
Proof.
  induction s as [|c s IH]; [reflexivity|].
  rewrite Split_String.
  destruct (Ascii.eqb_spec c sep) as [->|Hne].
  - rewrite Join_cons. destruct (Split_cons s sep) as (h & t & Hs).
    rewrite Hs in *. simpl. simpl in IH. rewrite IH. reflexivity.
  - destruct (Split_cons s sep) as (h & t & Hs). rewrite Hs in *. simpl hd. simpl tail.
    rewrite Join_cons. rewrite Join_cons in IH.
    destruct t; simpl; rewrite <- IH; reflexivity.
Qed.

Lemma String_length_app s1 s2 : String.length (s1 ++ s2) = String.length s1 + String.length s2.
Proof. induction s1; simpl; auto. Qed.

Lemma Join_length x l sep :
  String.length (Join (x :: l) sep) =
  String.length x + match l with [] => 0 | _ :: _ => S (String.length (Join l sep)) end.
Proof.
  rewrite Join_cons. destruct l; [lia|]. rewrite String_length_app. reflexivity.
Qed.

Lemma path_length path :
  String.length path =
  String.length (first path) +
  match tail (Split path separator) with [] => 0 | _ :: _ => S (String.length (rest path)) end.
Proof.
  unfold first, rest. rewrite <- (Join_Split path separator) at 1.
  destruct (Split_cons path separator) as (h & t & ->). apply Join_length.
Qed.

Lemma rest_shorter path : path <> "" -> String.length (rest path) < String.length path.
Proof.
  intros Hne. pose proof (path_length path) as H. unfold rest, first in *.
  destruct (Split_cons path separator) as (h & t & Hs). rewrite Hs in *. simpl in *.
  destruct t; simpl in *; [|lia].
  destruct path; [congruence|]. simpl. lia.
Qed.

Lemma not_single_rest_shorter path :
  ~ single path -> String.length (rest path) < String.length path.
Proof.
  intros Hn. apply rest_shorter. intros ->. apply Hn. reflexivity.
Qed.

End Path.
Import Path.

(* ===================================================================== *)
(** ** Data model *)
(* ===================================================================== *)

(** [time.Time] as an instant on a line, [fs.FileMode] as its bits, a Go
    pointer as an address. *)
Abbreviation Time := Z (only parsing).
Abbreviation FileMode := N (only parsing).
Abbreviation ptr := positive (only parsing).

(** Modelled from the spec: the metadata value [fileinfo], declared outside
    dir.go.  Section 3: name, size, modification time, directory flag, mode;
    these are the fields that the composite literals of dir.go set.  It is
    also the [fs.DirEntry] that [ReadDir] returns. *)
Record fileinfo := mkInfo {
  name : string;
  size : Z;
  modified : Time;
  isDir : bool;
  mode : FileMode
}.

(** A Go byte slice made by [make([]byte, len, cap)]: its bytes and its
    capacity. *)
Record buffer := mkBuffer {
  bytes : list Byte.byte;
  capacity : nat
}.

(** [type dir struct { sync.RWMutex; info fileinfo; dirs map[string]*dir;
    files map[string]*file }].  The mutex has no state of its own here: the
    methods run one at a time, and each takes and releases it in pairs. *)
Record dir := mkDir {
  dir_info : fileinfo;
  dirs : gmap string ptr;
  files : gmap string ptr
}.

(** Modelled from the spec: the file node ([type file], declared outside
    dir.go).  Section 3 gives it metadata and an owned byte buffer; the
    composite literal in [WriteFile] sets exactly the fields [info] and
    [content]. *)
Record file := mkFile {
  file_info : fileinfo;
  content : buffer
}.

(** The heap: directory nodes and file nodes by pointer, and the number of
    readings of the clock taken so far.  The methods only ever add new nodes
    below existing ones, so the heaps they build from a root are trees; the
    statements below do not need that and hold for every heap. *)
Record world := mkWorld {
  dnodes : gmap ptr dir;
  fnodes : gmap ptr file;
  ticks : nat
}.

(** Modelled from the spec: [Name()] of the metadata value, declared outside
    dir.go.  Section 3: the value carries its name and returns it. *)
Definition Name (i : fileinfo) : string := name i.

(** Go errors.  [ErrNotExist], [ErrExist] and [ErrInvalid] are the sentinels
    of [io/fs]; [EOF] is [io.EOF]; [ErrMode] is the failure of [overwrite];
    [Wrapped msg e] is the value of [fmt.Errorf] with a [%w] verb: the
    formatted message and the error it wraps. *)
Inductive error :=
| ErrNotExist
| ErrExist
| ErrInvalid
| ErrMode
| EOF
| Wrapped (msg : string) (cause : error).

(** [err.Error()]. *)
Definition Error (e : error) : string :=
  match e with
  | ErrNotExist => "file does not exist"
  | ErrExist => "file already exists"
  | ErrInvalid => "invalid argument"
  | ErrMode => "invalid mode"
  | EOF => "EOF"
  | Wrapped msg _ => msg
  end.

(** [os.IsNotExist(err)]: true of the sentinel itself; it does not look
    through an error wrapped by [fmt.Errorf]. *)
Definition IsNotExist (e : error) : bool :=
  match e with
  | ErrNotExist => true
  | _ => false
  end.

(** [errors.Is(err, fs.ErrNotExist)]: follows the chain of wrapped errors. *)
Fixpoint wrapsNotExist (e : error) : bool :=
  match e with
  | ErrNotExist => true
  | Wrapped _ cause => wrapsNotExist cause
  | _ => false
  end.

(** What a call ends in: a value, a returned error, or a run-time panic (a
    method called through a pointer that is not in the heap). *)
Inductive outcome (A : Type) :=
| OK (a : A)
| Err (e : error)
| Panic.
Arguments OK {A} a.
Arguments Err {A} e.
Arguments Panic {A}.

(** What is outside dir.go: the clock behind [time.Now()] (its n-th reading),
    the constant [bufferSize], the mode check of [overwrite], the order in
    which [range] visits a Go map, and [sort.Slice].  Nothing is assumed of
    the clock, the constant and the mode check; the statements hold for
    every environment, so for every order of iteration and every sorting
    procedure that meet the contracts of [EnvOK] below. *)
Record Env := mkEnv {
  clock : nat -> Time;
  bufferSize : nat;
  validMode : FileMode -> bool;
  rangeOrder : gmap string ptr -> list (string * ptr);
  sortSlice : (fileinfo -> fileinfo -> bool) -> list fileinfo -> list fileinfo
}.

(** [less] is a strict weak order, the requirement of [sort.Slice]. *)
Definition strictWeak {A} (less : A -> A -> bool) : Prop :=
  (forall a b, less a b = true -> less b a = false) /\
  (forall a b c, less b a = false -> less c b = false -> less c a = false).

(** The contracts of Go's [range] over a map (every entry once, in some
    order) and of [sort.Slice] (a reordering of the slice with no later
    element less than an earlier one; not stable). *)
Record EnvOK (E : Env) : Prop := mkEnvOK {
  range_perm : forall m, Permutation (rangeOrder E m) (map_to_list m);
  sort_perm : forall less l, Permutation (sortSlice E less l) l;
  sort_sorted : forall less l, strictWeak less ->
    StronglySorted (fun a b => less b a = false) (sortSlice E less l)
}.

(* ===================================================================== *)
(** ** The monad of the methods *)
(* ===================================================================== *)

Definition M (A : Type) : Type := world -> outcome A * world.

Definition ret {A} (a : A) : M A := fun w => (OK a, w).

Definition fail {A} (e : error) : M A := fun w => (Err e, w).

Definition panic {A} : M A := fun w => (Panic, w).

(** Sequencing: an error or a panic ends the call; what was written to the
    heap before it stays written. *)
Definition bind {A B} (m : M A) (k : A -> M B) : M B :=
  fun w =>
    match m w with
    | (OK a, w') => k a w'
    | (Err e, w') => (Err e, w')
    | (Panic, w') => (Panic, w')
    end.

Notation "'let*' x ':=' m 'in' k" := (bind m (fun x => k))
  (at level 10, x name, m at level 100, k at level 200).

(** Reading through a pointer. *)
Definition loadDir (p : ptr) : M dir :=
  fun w => match dnodes w !! p with
           | Some n => (OK n, w)
           | None => (Panic, w)
           end.

Definition loadFile (p : ptr) : M file :=
  fun w => match fnodes w !! p with
           | Some f => (OK f, w)
           | None => (Panic, w)
           end.

(** Assigning to fields of the node behind a pointer. *)
Definition updDir (p : ptr) (g : dir -> dir) : M unit :=
  fun w => match dnodes w !! p with
           | Some n => (OK tt, mkWorld (<[p := g n]> (dnodes w)) (fnodes w) (ticks w))
           | None => (Panic, w)
           end.

Definition updFile (p : ptr) (g : file -> file) : M unit :=
  fun w => match fnodes w !! p with
           | Some f => (OK tt, mkWorld (dnodes w) (<[p := g f]> (fnodes w)) (ticks w))
           | None => (Panic, w)
           end.

(** [&dir{...}] and [&file{...}]: a pointer that no live node has. *)
Definition allocDir (n : dir) : M ptr :=
  fun w => let p := fresh (dom (dnodes w)) in
           (OK p, mkWorld (<[p := n]> (dnodes w)) (fnodes w) (ticks w)).

Definition allocFile (f : file) : M ptr :=
  fun w => let p := fresh (dom (fnodes w)) in
           (OK p, mkWorld (dnodes w) (<[p := f]> (fnodes w)) (ticks w)).

(** Running a computation on each element of a slice, in order. *)
Fixpoint forEach {A B} (g : A -> M B) (l : list A) : M (list B) :=
  match l with
  | [] => ret []
  | a :: l' => let* b := g a in let* bs := forEach g l' in ret (b :: bs)
  end.

Definition setModified (t : Time) (i : fileinfo) : fileinfo :=
  mkInfo (name i) (size i) t (isDir i) (mode i).

Definition setDirInfo (g : fileinfo -> fileinfo) (n : dir) : dir :=
  mkDir (g (dir_info n)) (dirs n) (files n).

Definition setChildDir (k : string) (c : ptr) (n : dir) : dir :=
  mkDir (dir_info n) (<[k := c]> (dirs n)) (files n).

Definition setChildFile (k : string) (c : ptr) (n : dir) : dir :=
  mkDir (dir_info n) (dirs n) (<[k := c]> (files n)).

(** What [Open] returns, an [fs.File]: the directory node itself, or the
    read handle of a file. *)
Record reader := mkReader {
  r_file : ptr;
  r_data : list Byte.byte;
  r_pos : nat
}.

Inductive handle :=
| HDir (d : ptr)
| HFile (r : reader).

(* ===================================================================== *)
(** ** The methods *)
(* ===================================================================== *)

Section Methods.

Variable E : Env.

(** [time.Now()]: the next reading of the clock. *)
Definition timeNow : M Time :=
  fun w => (OK (clock E (ticks w)), mkWorld (dnodes w) (fnodes w) (S (ticks w))).

(** [buffer := make([]byte, len(data), max); copy(buffer, data)] with
    [max] the larger of [bufferSize] and [len(data)]. *)
Definition makeBuffer (data : list Byte.byte) : buffer :=
  mkBuffer data (Nat.max (bufferSize E) (length data)).

(** *** The file node *)

(** Modelled from the spec: [openR] of the file node, declared outside dir.go.
    Section 4.3: a handle on the node's current content, a snapshot taken at
    open time, with its own cursor starting at zero. *)
Definition openR (f : ptr) : M handle :=
  let* fl := loadFile f in
  ret (HFile (mkReader f (bytes (content fl)) 0)).

(** Modelled from the spec: [overwrite] of the file node, declared outside dir.go.
    Section 4.3: it replaces the buffer and refreshes size, modification time
    and mode, and fails only if the mode is invalid. *)
Definition overwrite (f : ptr) (buf : buffer) (perm : FileMode) : M unit :=
  if validMode E perm then
    let* now := timeNow in
    updFile f (fun fl =>
      mkFile (mkInfo (name (file_info fl)) (Z.of_nat (length (bytes buf)))
                     now (isDir (file_info fl)) perm)
             buf)
  else fail ErrMode.

(** Modelled from the spec: [Stat] on the read handle of a file, declared
    outside dir.go.  Section 4.3: the metadata of the file node. *)
Definition statFile (r : reader) : M fileinfo :=
  let* fl := loadFile (r_file r) in
  ret (file_info fl).

(** *** The directory node *)

(** [func (d *dir) Stat() (fs.FileInfo, error)]. *)
Definition Stat (d : ptr) : M fileinfo :=
  let* n := loadDir d in
  ret (dir_info n).

(** [Stat] through an [fs.File]: the method of the value behind the
    interface. *)
Definition statHandle (h : handle) : M fileinfo :=
  match h with
  | HDir d => Stat d
  | HFile r => statFile r
  end.

(** [func (d *dir) getDir(name string)], returning a directory pointer and an error. *)
Equations getDir (d : ptr) (name : string) : M ptr
  by wf (String.length name) lt :=
  getDir d name with decide (name = "") := {
    | left _ := ret d
    | right _ :=
        let* n := loadDir d in
        match dirs n !! first name with
        | Some f => getDir f (rest name)
        | None => fail ErrNotExist
        end }.
Next Obligation. intros. apply rest_shorter. assumption. Qed.

(** [func (d *dir) getFile(name string)], returning a file pointer and an error. *)
Equations getFile (d : ptr) (name : string) : M ptr
  by wf (String.length name) lt :=
  getFile d name with decide (single name) := {
    | left _ :=
        let* n := loadDir d in
        match files n !! name with
        | Some f => ret f
        | None => fail ErrNotExist
        end
    | right _ :=
        let* sub := getDir d (first name) in
        getFile sub (rest name) }.
Next Obligation. intros. apply not_single_rest_shorter. assumption. Qed.

(** [func (d *dir) Open(name string) (fs.File, error)]. *)
Definition Open (d : ptr) (name : string) : M handle :=
  if decide (name = "" \/ name = ".") then ret (HDir d)
  else fun w =>
    match getFile d name w with
    | (OK f, w1) => openR f w1
    | (Panic, w1) => (Panic, w1)
    | (Err err, w1) =>
        if negb (IsNotExist err) then (Err err, w1)
        else match getDir d name w1 with
             | (OK f, w2) => (OK (HDir f), w2)
             | (Panic, w2) => (Panic, w2)
             | (Err err', w2) =>
                 if negb (IsNotExist err') then (Err err', w2)
                 else (Err (Wrapped ("no such file or directory: " ++ name ++ ": "
                                       ++ Error ErrNotExist) ErrNotExist), w2)
             end
    end.

(** The comparison that [ReadDir] hands to [sort.Slice]:
    [entries[i].Name() < entries[j].Name()]. *)
Definition lessName (a b : fileinfo) : bool := String.ltb (Name a) (Name b).

(** [func (d *dir) ReadDir(name string) ([]fs.DirEntry, error)]. *)
Equations ReadDir (d : ptr) (name : string) : M (list fileinfo)
  by wf (String.length name) lt :=
  ReadDir d name with decide (name = "") := {
    | left _ :=
        let* n := loadDir d in
        let* fs := forEach (fun kf => let* h := openR (snd kf) in statHandle h)
                           (rangeOrder E (files n)) in
        let* ds := forEach (fun kd => Stat (snd kd)) (rangeOrder E (dirs n)) in
        ret (sortSlice E lessName (fs ++ ds)%list)
    | right _ :=
        let* n := loadDir d in
        match dirs n !! first name with
        | Some sub => ReadDir sub (rest name)
        | None => fail ErrNotExist
        end }.
Next Obligation. intros. apply rest_shorter. assumption. Qed.

(** [func (f *dir) Read(_ []byte) (int, error)]: a directory is no byte
    stream.  [n] is the length of the caller's slice. *)
Definition Read (f : ptr) (n : nat) : nat * option error := (0, Some ErrInvalid).

(** [func (f *dir) Close() error]. *)
Definition Close (f : ptr) : option error := None.

(** Modelled from the spec: [Read] on the read handle of a file, declared
    outside dir.go.  Section 4.3: the content as a sequential byte stream
    behind the handle's own cursor.  The result is the bytes put into the
    caller's slice of length [n], the error, and the handle with its cursor
    moved; at the end of the content it is [io.EOF]. *)
Definition readFile (r : reader) (n : nat) : list Byte.byte * option error * reader :=
  if decide (length (r_data r) <= r_pos r) then ([], Some EOF, r)
  else let chunk := take n (drop (r_pos r) (r_data r)) in
       (chunk, None, mkReader (r_file r) (r_data r) (r_pos r + length chunk)).

(** [Read] through the [fs.File] that [Open] returned: the method of the
    value behind the interface. *)
Definition readHandle (h : handle) (n : nat) : list Byte.byte * option error * handle :=
  match h with
  | HDir d => ([], snd (Read d n), h)
  | HFile r => let '(chunk, e, r') := readFile r n in (chunk, e, HFile r')
  end.

(** The new directory node of [MkdirAll]. *)
Definition newDir (nm : string) (now : Time) (perm : FileMode) : dir :=
  mkDir (mkInfo nm 256 now true perm) ∅ ∅.

(** [func (f *dir) MkdirAll(path string, perm fs.FileMode) error]. *)
Equations MkdirAll (f : ptr) (path : string) (perm : FileMode) : M unit
  by wf (String.length path) lt :=
  MkdirAll f path perm :=
    let* n := loadDir f in
    if decide (is_Some (files n !! first path)) then fail ErrExist
    else
      let* n := loadDir f in
      let* _ := match dirs n !! first path with
                | Some _ => ret tt
                | None =>
                    let* now := timeNow in
                    let* c := allocDir (newDir (first path) now perm) in
                    updDir f (setChildDir (first path) c)
                end in
      let* now := timeNow in
      let* _ := updDir f (setDirInfo (setModified now)) in
      match decide (single path) with
      | left _ => ret tt
      | right _ =>
          let* n := loadDir f in
          match dirs n !! first path with
          | Some c => MkdirAll c (rest path) perm
          | None => panic
          end
      end.
Next Obligation. intros. apply not_single_rest_shorter. assumption. Qed.

(** The new file node of [WriteFile]. *)
Definition newFile (nm : string) (buf : buffer) (now : Time) (perm : FileMode) : file :=
  mkFile (mkInfo nm (Z.of_nat (length (bytes buf))) now false perm) buf.

(** [func (f *dir) WriteFile(path string, data []byte, perm fs.FileMode) error]. *)
Equations WriteFile (f : ptr) (path : string) (data : list Byte.byte) (perm : FileMode)
  : M unit by wf (String.length path) lt :=
  WriteFile f path data perm with decide (single path) := {
    | left _ :=
        let* n := loadDir f in
        match files n !! first path with
        | Some existing => overwrite existing (makeBuffer data) perm
        | None =>
            let* now := timeNow in
            let* c := allocFile (newFile (first path) (makeBuffer data) now perm) in
            updDir f (setChildFile (first path) c)
        end
    | right _ :=
        let* n := loadDir f in
        match dirs n !! first path with
        | None => fail ErrNotExist
        | Some _ =>
            let* n := loadDir f in
            match dirs n !! first path with
            | Some c => WriteFile c (rest path) data perm
            | None => panic
            end
        end }.
Next Obligation. intros. apply not_single_rest_shorter. assumption. Qed.

End Methods.

(* ===================================================================== *)
(** ** Reading a handle to its end, walks, the invariant *)
(* ===================================================================== *)

(** The bytes a handle has left to deliver. *)
Definition remaining (h : handle) : nat :=
  match h with
  | HDir _ => 0
  | HFile r => length (r_data r) - r_pos r
  end.

Lemma readHandle_progress h k bs h' :
  readHandle h (S k) = (bs, None, h') -> remaining h' < remaining h.
Proof.
  destruct h as [d|r]; simpl; [discriminate|]. unfold readFile.
  destruct (decide (length (r_data r) <= r_pos r)) as [|Hlt]; [discriminate|].
  intros [= <- <-]. simpl.
  rewrite length_take, length_drop. lia.
Qed.

(** Reading to completion, as [io.ReadAll] does: call [Read] with a
    non-empty slice (of [S k] bytes) until it reports an error; [io.EOF]
    ends the loop with the bytes collected, any other error is returned. *)
Equations readAll (h : handle) (k : nat) (acc : list Byte.byte)
  : outcome (list Byte.byte) by wf (remaining h) lt :=
  readAll h k acc with Equations.Prop.Logic.inspect (readHandle h (S k)) := {
    | exist _ (bs, None, h') _ := readAll h' k (acc ++ bs)%list
    | exist _ (bs, Some EOF, _) _ := OK (acc ++ bs)%list
    | exist _ (bs, Some e, _) _ := Err e }.
Next Obligation. intros. eapply readHandle_progress. eassumption. Qed.

(** Following child-directory pointers along a list of segments, one map
    lookup per segment: the descent that every method performs. *)
Fixpoint walk (d : ptr) (segs : list string) : M ptr :=
  match segs with
  | [] => ret d
  | s :: segs' =>
      let* n := loadDir d in
      match dirs n !! s with
      | Some c => walk c segs'
      | None => fail ErrNotExist
      end
  end.

(** No name is a key of both child maps of the node. *)
Definition nodeOK (n : dir) : Prop := dom (dirs n) ## dom (files n).

(** The invariant of the tree: [nodeOK] in every directory node. *)
Definition treeOK (w : world) : Prop := map_Forall (fun _ n => nodeOK n) (dnodes w).

#[global] Instance nodeOK_dec n : Decision (nodeOK n).
Proof. unfold nodeOK. apply _. Defined.

#[global] Instance treeOK_dec w : Decision (treeOK w).
Proof. unfold treeOK. apply _. Defined.

(** The calls of the public interface, and the heap a call leaves. *)
Inductive call :=
| CallMkdirAll (path : string) (perm : FileMode)
| CallWriteFile (path : string) (data : list Byte.byte) (perm : FileMode)
| CallOpen (name : string)
| CallReadDir (name : string).

Definition after (E : Env) (c : call) (d : ptr) (w : world) : world :=
  match c with
  | CallMkdirAll path perm => snd (MkdirAll E d path perm w)
  | CallWriteFile path data perm => snd (WriteFile E d path data perm w)
  | CallOpen name => snd (Open d name w)
  | CallReadDir name => snd (ReadDir E d name w)
  end.

(** The directory that [WriteFile] puts the file into, and the key it uses:
    all segments but the last are walked, the last is the key. *)
Definition writesOverDir (d : ptr) (path : string) (w : world) : Prop :=
  exists D n,
    walk d (removelast (Split path separator)) w = (OK D, w) /\
    dnodes w !! D = Some n /\
    is_Some (dirs n !! List.last (Split path separator) "").

(** A call that cannot put a file where a directory is. *)
Definition keepsApart (c : call) (d : ptr) (w : world) : Prop :=
  match c with
  | CallWriteFile path _ _ => ~ writesOverDir d path w
  | _ => True
  end.

(** The metadata of the children of a node, files first: what [ReadDir]
    collects before sorting (in the order of [map_to_list]). *)
Definition childEntries (w : world) (n : dir) : list fileinfo :=
  (omap (fun kp => file_info <$> fnodes w !! snd kp) (map_to_list (files n)) ++
   omap (fun kp => dir_info <$> dnodes w !! snd kp) (map_to_list (dirs n)))%list.

(** Every child pointer of the node is in the heap. *)
Definition childrenLive (w : world) (n : dir) : Prop :=
  map_Forall (fun _ p => is_Some (fnodes w !! p)) (files n) /\
  map_Forall (fun _ p => is_Some (dnodes w !! p)) (dirs n).

(** Ascending by name: [a] may stand before [b]. *)
Definition nameLe (a b : fileinfo) : Prop := String.leb (name a) (name b) = true.

(** Insertion sort by [less], one implementation of [sort.Slice]. *)
Fixpoint insertBy {A} (less : A -> A -> bool) (x : A) (l : list A) : list A :=
  match l with
  | [] => [x]
  | y :: l' => if less y x then y :: insertBy less x l' else x :: y :: l'
  end.

Fixpoint isort {A} (less : A -> A -> bool) (l : list A) : list A :=
  match l with
  | [] => []
  | x :: l' => insertBy less x (isort less l')
  end.

(** A concrete environment: a clock that starts at 1000 and advances by one
    per reading, a minimum capacity of 256 bytes, every mode valid, maps
    visited in the order of [map_to_list], insertion sort. *)
Definition stdEnv : Env :=
  mkEnv (fun n => 1000 + Z.of_nat n)%Z 256 (fun _ => true) map_to_list (@isort fileinfo).

(** A heap that holds one empty root directory, at pointer 1. *)
Definition rootPtr : ptr := 1%positive.
Definition emptyRoot : world :=
  mkWorld {[ rootPtr := mkDir (mkInfo "" 256 0%Z true 493%N) ∅ ∅ ]} ∅ 0.

(* ===================================================================== *)
(** ** Notions used in the statements *)
(* ===================================================================== *)

(** An outcome that is no error other than [ErrNotExist]. *)
Definition notExistOnly {A} (r : outcome A) : Prop :=
  match r with
  | Err e => e = ErrNotExist
  | _ => True
  end.

(** The error that [Open] builds with [fmt.Errorf] for the path [name]. *)
Definition notFound (name : string) : error :=
  Wrapped ("no such file or directory: " ++ name ++ ": file does not exist") ErrNotExist.

(** The child-directory maps of every live node are the same in both heaps. *)
Definition sameDirs (w w' : world) : Prop :=
  forall p n, dnodes w !! p = Some n ->
    exists n', dnodes w' !! p = Some n' /\ dirs n' = dirs n.

(** What [MkdirAll] does at one node before it recurses: the check against
    the child files, the creation of the child directory when it is missing,
    the update of the node's modification time. *)
Definition mkdirStep (E : Env) (f : ptr) (s : string) (perm : FileMode) : M unit :=
  let* n := loadDir f in
  if decide (is_Some (files n !! s)) then fail ErrExist
  else
    let* n := loadDir f in
    let* _ := match dirs n !! s with
              | Some _ => ret tt
              | None =>
                  let* now := timeNow E in
                  let* c := allocDir (newDir s now perm) in
                  updDir f (setChildDir s c)
              end in
    let* now := timeNow E in
    updDir f (setDirInfo (setModified now)).

(** The fields of the metadata other than the modification time agree. *)
Definition sameIdentity (i i' : fileinfo) : Prop :=
  name i' = name i /\ size i' = size i /\ isDir i' = isDir i /\ mode i' = mode i.

(** [t] is a reading of the clock taken between the heaps [w] and [w']. *)
Definition readDuring (E : Env) (w w' : world) (t : Time) : Prop :=
  exists k, ticks w <= k < ticks w' /\ t = clock E k.

(** What a run of [MkdirAll] may do to a directory node that was there
    before: it stays, keeps its child directories (and may gain some) and
    its identity, and its modification time is the old one or a reading of
    the clock taken during the run. *)
Definition mkdirRel (E : Env) (w w' : world) : Prop :=
  ticks w <= ticks w' /\
  forall p n, dnodes w !! p = Some n ->
    exists n', dnodes w' !! p = Some n' /\
               dirs n ⊆ dirs n' /\
               sameIdentity (dir_info n) (dir_info n') /\
               (modified (dir_info n') = modified (dir_info n) \/
                readDuring E w w' (modified (dir_info n'))).

(** The node behind a pointer (an empty one when the pointer is not live). *)
Definition nodeOf (w : world) (p : ptr) : dir :=
  default (mkDir (mkInfo "" 0 0 false 0) ∅ ∅) (dnodes w !! p).

(** *** Concrete heaps, built by the methods themselves from [emptyRoot] *)

Definition hello : list Byte.byte := [Byte.x68; Byte.x69].

(** [MkdirAll "a/b"]. *)
Definition treeAB : world := snd (MkdirAll stdEnv rootPtr "a/b" 493%N emptyRoot).

(** ... then [WriteFile "a/b/c.txt"]. *)
Definition treeABfile : world :=
  snd (WriteFile stdEnv rootPtr "a/b/c.txt" hello 420%N treeAB).

(** [WriteFile "."] on the empty root. *)
Definition dotWorld : world := snd (WriteFile stdEnv rootPtr "." hello 420%N emptyRoot).

(** [MkdirAll "a/"], which makes [a] and in it a directory with the empty
    name; then [WriteFile "a//b"]. *)
Definition slashDirs : world := snd (MkdirAll stdEnv rootPtr "a/" 493%N emptyRoot).
Definition slashWorld : world := snd (WriteFile stdEnv rootPtr "a//b" hello 420%N slashDirs).

(** [MkdirAll "a"]; then [WriteFile "a"], a file under the name of the
    directory; or [WriteFile "a/"], a file with the empty name inside [a]. *)
Definition dirA : world := snd (MkdirAll stdEnv rootPtr "a" 493%N emptyRoot).
Definition fileOverDir : world := after stdEnv (CallWriteFile "a" hello 420%N) rootPtr dirA.
Definition emptyNameFile : world := snd (WriteFile stdEnv rootPtr "a/" hello 420%N dirA).

(** A file [x] and a directory [y] in the root, made in either order. *)
Definition fileX : world := snd (WriteFile stdEnv rootPtr "x" hello 420%N emptyRoot).
Definition xyWorld : world := snd (MkdirAll stdEnv rootPtr "y" 493%N fileX).
Definition yxWorld : world :=
  snd (WriteFile stdEnv rootPtr "x" hello 420%N
         (snd (MkdirAll stdEnv rootPtr "y" 493%N emptyRoot))).

(** [stdEnv] with another order of iteration over maps (the reverse one) and
    another minimum capacity. *)
Definition revEnv : Env :=
  mkEnv (clock stdEnv) 0 (validMode stdEnv) (fun m => rev (map_to_list m)) (@isort fileinfo).

(** The names of the entries a listing returned (none when it failed). *)
Definition listedNames (r : outcome (list fileinfo) * world) : list string :=
  match fst r with
  | OK es => name <$> es
  | _ => []
  end.

(* ===================================================================== *)
(** ** Further notions: what the writers keep *)
(* ===================================================================== *)

(** The file store is the same, the clock has not gone back, and every
    directory node is still there with the same child files and at least the
    child directories it had. *)
Definition keepsNodes (w w' : world) : Prop :=
  fnodes w' = fnodes w /\ ticks w <= ticks w' /\
  forall p n, dnodes w !! p = Some n ->
    exists n', dnodes w' !! p = Some n' /\ dirs n ⊆ dirs n' /\ files n' = files n.

(** The two heaps have the same file store and the same directory nodes with
    the same child maps and identity: they differ at most in modification
    times and in the count of clock readings. *)
Definition onlyTimes (w w' : world) : Prop :=
  fnodes w' = fnodes w /\
  forall p, match dnodes w !! p, dnodes w' !! p with
            | Some n, Some n' =>
                dirs n' = dirs n /\ files n' = files n /\
                sameIdentity (dir_info n) (dir_info n')
            | None, None => True
            | _, _ => False
            end.

(** The directories along [parts] are there below [d], each under its
    segment in the child-directory map of the one before, and none of the
    segments is the key of a child file where it is looked up: the state in
    which [MkdirAll] on these segments has nothing to create. *)
Fixpoint made (w : world) (d : ptr) (parts : list string) : Prop :=
  match parts with
  | [] => True
  | s :: parts' =>
      exists n c, dnodes w !! d = Some n /\ files n !! s = None /\
                  dirs n !! s = Some c /\ made w c parts'
  end.

(** What a call that writes the file named [leaf] may do to the directory
    nodes: none is made or removed, each keeps its metadata (the modification
    time too) and its child directories, and its child files but for [leaf],
    which it may gain. *)
Definition dirsUntouched (leaf : string) (w w' : world) : Prop :=
  forall p, match dnodes w !! p, dnodes w' !! p with
            | Some n, Some n' =>
                dir_info n' = dir_info n /\ dirs n' = dirs n /\
                (files n' = files n \/
                 exists c, files n !! leaf = None /\ files n' = <[leaf := c]> (files n))
            | None, None => True
            | _, _ => False
            end.

(** Every directory node is still there, with at least the child directories
    and child files it had, each under the same key. *)
Definition grows (w w' : world) : Prop :=
  forall p n, dnodes w !! p = Some n ->
    exists n', dnodes w' !! p = Some n' /\ dirs n ⊆ dirs n' /\ files n ⊆ files n'.

(** What [MkdirAll] on the segments [parts] will return, read off the heap
    before the call: it goes down the child directories that are there; a
    segment that is the key of a child file on the way stops it with
    [fs.ErrExist]; past the last segment, or the first one that has no
    directory yet, nothing can stop it. *)
Fixpoint mkdirOutcome (w : world) (d : ptr) (parts : list string) : outcome unit :=
  match parts with
  | [] => OK tt
  | s :: parts' =>
      match dnodes w !! d with
      | None => Panic
      | Some n =>
          if decide (is_Some (files n !! s)) then Err ErrExist
          else match parts', dirs n !! s with
               | _ :: _, Some c => mkdirOutcome w c parts'
               | _, _ => OK tt
               end
      end
  end.

(* ===================================================================== *)
(** ** The methods, equation by equation *)
(* ===================================================================== *)

Lemma bind_run {A B} (m : M A) (k : A -> M B) w :
  bind m k w =
  match m w with
  | (OK a, w') => k a w'
  | (Err e, w') => (Err e, w')
  | (Panic, w') => (Panic, w')
  end.
Proof. reflexivity. Qed.

Lemma bind_assoc {A B C} (m : M A) (k : A -> M B) (k' : B -> M C) w :
  bind (bind m k) k' w = bind m (fun a => bind (k a) k') w.
Proof. unfold bind. destruct (m w) as [[a|e|] w1]; reflexivity. Qed.

Lemma bind_ext {A B} (m : M A) (k k' : A -> M B) w :
  (forall a w1, k a w1 = k' a w1) -> bind m k w = bind m k' w.
Proof. intros H. unfold bind. destruct (m w) as [[a|e|] w1]; auto. Qed.

Lemma getDir_eq d name :
  getDir d name =
  if decide (name = "") then ret d
  else let* n := loadDir d in
       match dirs n !! first name with
       | Some f => getDir f (rest name)
       | None => fail ErrNotExist
       end.
Proof. rewrite getDir_equation_1. destruct (decide (name = "")); reflexivity. Qed.

Lemma getFile_eq d name :
  getFile d name =
  if decide (single name) then
    let* n := loadDir d in
    match files n !! name with
    | Some f => ret f
    | None => fail ErrNotExist
    end
  else let* sub := getDir d (first name) in getFile sub (rest name).
Proof. rewrite getFile_equation_1. destruct (decide (single name)); reflexivity. Qed.

Lemma ReadDir_eq E d name :
  ReadDir E d name =
  if decide (name = "") then
    let* n := loadDir d in
    let* fs := forEach (fun kf => let* h := openR (snd kf) in statHandle h)
                       (rangeOrder E (files n)) in
    let* ds := forEach (fun kd => Stat (snd kd)) (rangeOrder E (dirs n)) in
    ret (sortSlice E lessName (fs ++ ds)%list)
  else let* n := loadDir d in
       match dirs n !! first name with
       | Some sub => ReadDir E sub (rest name)
       | None => fail ErrNotExist
       end.
Proof. rewrite ReadDir_equation_1. destruct (decide (name = "")); reflexivity. Qed.

Lemma WriteFile_eq E f path data perm :
  WriteFile E f path data perm =
  if decide (single path) then
    let* n := loadDir f in
    match files n !! first path with
    | Some existing => overwrite E existing (makeBuffer E data) perm
    | None =>
        let* now := timeNow E in
        let* c := allocFile (newFile (first path) (makeBuffer E data) now perm) in
        updDir f (setChildFile (first path) c)
    end
  else
    let* n := loadDir f in
    match dirs n !! first path with
    | None => fail ErrNotExist
    | Some _ =>
        let* n := loadDir f in
        match dirs n !! first path with
        | Some c => WriteFile E c (rest path) data perm
        | None => panic
        end
    end.
Proof. rewrite WriteFile_equation_1. destruct (decide (single path)); reflexivity. Qed.

(** Induction on the length of the path, the measure of every recursion. *)
Lemma path_ind (P : string -> Prop) :
  (forall p, (forall q, String.length q < String.length p -> P q) -> P p) ->
  forall p, P p.
Proof.
  intros step p. remember (String.length p) as k eqn:Hk. revert p Hk.
  induction k as [k IH] using lt_wf_ind. intros p ->.
  apply step. intros q Hq. exact (IH _ Hq q eq_refl).
Qed.

(** *** The resolvers only read *)

Lemma walk_reads segs : forall d w, snd (walk d segs w) = w.
Proof.
  induction segs as [|s segs IH]; intros d w; simpl; [reflexivity|].
  unfold bind, loadDir. destruct (dnodes w !! d) as [n|]; [|reflexivity].
  destruct (dirs n !! s); [apply IH | reflexivity].
Qed.

Lemma getDir_reads name : forall d w,
  snd (getDir d name w) = w /\ notExistOnly (fst (getDir d name w)).
Proof.
  induction name as [name IH] using path_ind. intros d w.
  rewrite getDir_eq. destruct (decide (name = "")) as [|Hne]; [split; exact I || reflexivity|].
  unfold bind, loadDir. destruct (dnodes w !! d) as [n|]; [|split; [reflexivity | exact I]].
  destruct (dirs n !! first name) as [f|]; [|split; reflexivity].
  apply IH, rest_shorter, Hne.
Qed.

Lemma getDir_run d name w : exists r, getDir d name w = (r, w) /\ notExistOnly r.
Proof.
  destruct (getDir_reads name d w) as [H1 H2].
  destruct (getDir d name w) as [r w']. simpl in *. subst. eauto.
Qed.

Lemma getFile_reads name : forall d w,
  snd (getFile d name w) = w /\ notExistOnly (fst (getFile d name w)).
Proof.
  induction name as [name IH] using path_ind. intros d w.
  rewrite getFile_eq. destruct (decide (single name)) as [|Hne].
  - unfold bind, loadDir. destruct (dnodes w !! d) as [n|]; [|split; [reflexivity | exact I]].
    destruct (files n !! name); split; reflexivity.
  - rewrite bind_run. destruct (getDir_run d (first name) w) as (r & -> & Hr).
    destruct r as [sub|e|]; [|split; [reflexivity | exact Hr] | split; [reflexivity | exact I]].
    apply IH, not_single_rest_shorter, Hne.
Qed.

Lemma getFile_run d name w : exists r, getFile d name w = (r, w) /\ notExistOnly r.
Proof.
  destruct (getFile_reads name d w) as [H1 H2].
  destruct (getFile d name w) as [r w']. simpl in *. subst. eauto.
Qed.

Lemma openR_reads f w : snd (openR f w) = w.
Proof. unfold openR, bind, loadFile. destruct (fnodes w !! f); reflexivity. Qed.

Lemma statHandle_reads h w : snd (statHandle h w) = w.
Proof.
  destruct h as [d|r]; simpl; unfold Stat, statFile, bind, loadDir, loadFile.
  - destruct (dnodes w !! d); reflexivity.
  - destruct (fnodes w !! r_file r); reflexivity.
Qed.

Lemma Stat_reads d w : snd (Stat d w) = w.
Proof. unfold Stat, bind, loadDir. destruct (dnodes w !! d); reflexivity. Qed.

Lemma forEach_reads {A B} (g : A -> M B) (l : list A) :
  (forall a w, snd (g a w) = w) -> forall w, snd (forEach g l w) = w.
Proof.
  intros Hg. induction l as [|a l IH]; intros w; simpl; [reflexivity|].
  rewrite bind_run. specialize (Hg a w). destruct (g a w) as [[b|e|] w1]; simpl in Hg; subst; try reflexivity.
  rewrite bind_run. specialize (IH w). destruct (forEach g l w) as [[bs|e|] w1]; simpl in IH; subst; reflexivity.
Qed.

Lemma Open_reads d name w : snd (Open d name w) = w.
Proof.
  unfold Open. destruct (decide (name = "" \/ name = ".")); [reflexivity|].
  destruct (getFile_run d name w) as (r & -> & Hr).
  destruct r as [f|e|]; [apply openR_reads | | reflexivity].
  simpl in Hr. subst e. simpl.
  destruct (getDir_run d name w) as (r & -> & Hr).
  destruct r as [f|e|]; [reflexivity | | reflexivity].
  simpl in Hr. subst e. reflexivity.
Qed.

Lemma ReadDir_reads E name : forall d w, snd (ReadDir E d name w) = w.
Proof.
  induction name as [name IH] using path_ind. intros d w.
  rewrite ReadDir_eq. destruct (decide (name = "")) as [Hemp|Hne].
  - rewrite bind_run. unfold loadDir. destruct (dnodes w !! d) as [n|]; [|reflexivity].
    rewrite bind_run.
    pose proof (forEach_reads (fun kf => let* h := openR (snd kf) in statHandle h)
                  (rangeOrder E (files n))) as Hf.
    match type of Hf with ?P -> _ => assert (Hp : P) end.
    { intros a w0. rewrite bind_run. pose proof (openR_reads (snd a) w0) as Ho.
      destruct (openR (snd a) w0) as [[h|e|] w1]; simpl in Ho; subst; try reflexivity.
      apply statHandle_reads. }
    specialize (Hf Hp w).
    destruct (forEach _ (rangeOrder E (files n)) w) as [[fs|e|] w1]; simpl in Hf; subst; try reflexivity.
    rewrite bind_run.
    pose proof (forEach_reads (fun kd => Stat (snd kd)) (rangeOrder E (dirs n))
                  (fun a w0 => Stat_reads (snd a) w0) w) as Hd.
    destruct (forEach _ (rangeOrder E (dirs n)) w) as [[ds|e|] w1]; simpl in Hd; subst; reflexivity.
  - unfold bind, loadDir. destruct (dnodes w !! d) as [n|]; [|reflexivity].
    destruct (dirs n !! first name) as [f|]; [|reflexivity].
    apply IH, rest_shorter, Hne.
Qed.

(** *** More facts about paths *)

(** Every element of a split is a segment. *)
Lemma Split_segments s : Forall segment (Split s separator).
Proof.
  induction s as [|c s IH]; [repeat constructor|].
  rewrite Split_String. destruct (Ascii.eqb_spec c separator) as [->|Hne].
  - constructor; [reflexivity | exact IH].
  - destruct (Split_cons s separator) as (h & t & Hs). rewrite Hs in *. simpl.
    inversion IH as [|? ? Hh Ht]; subst. constructor; [|exact Ht].
    unfold segment in *. rewrite Split_String.
    destruct (Ascii.eqb_spec c separator); [contradiction|]. rewrite Hh. reflexivity.
Qed.

Lemma Split_app_segment x s :
  segment x -> Split (x ++ String separator s) separator = x :: Split s separator.
Proof.
  unfold segment. induction x as [|c x IH]; intros Hx.
  - reflexivity.
  - change (String c x ++ String separator s) with (String c (x ++ String separator s)).
    rewrite Split_String. rewrite Split_String in Hx.
    destruct (Ascii.eqb c separator); [discriminate|].
    injection Hx as Hh Ht.
    assert (Hseg : Split x separator = [x]).
    { destruct (Split_cons x separator) as (h & t & Hs). rewrite Hs in *. simpl in *. congruence. }
    rewrite (IH Hseg). reflexivity.
Qed.

(** Splitting a join of segments gives the segments back. *)
Lemma Split_Join l : l <> [] -> Forall segment l -> Split (Join l separator) separator = l.
Proof.
  induction l as [|x l IH]; [congruence|]. intros _ Hall.
  inversion Hall as [|? ? Hx Hl]; subst. rewrite Join_cons.
  destruct l as [|y l]; [exact Hx|].
  rewrite (Split_app_segment _ _ Hx). f_equal. apply IH; [discriminate | exact Hl].
Qed.

Lemma Split_snoc_sep s : Split (s ++ String separator "") separator = (Split s separator ++ [""])%list.
Proof.
  induction s as [|c s IH]; [reflexivity|].
  change (String c s ++ String separator "") with (String c (s ++ String separator "")).
  rewrite !Split_String, IH. destruct (Ascii.eqb c separator); [reflexivity|].
  destruct (Split_cons s separator) as (h & t & ->). reflexivity.
Qed.

Lemma Split_Join_cons s r :
  Forall segment (s :: r) -> Split (Join (s :: r) separator) separator = s :: r.
Proof. intros H. apply Split_Join; [discriminate | exact H]. Qed.

Lemma first_Join s r : Forall segment (s :: r) -> first (Join (s :: r) separator) = s.
Proof. intros H. unfold first. rewrite Split_Join_cons by exact H. reflexivity. Qed.

Lemma rest_Join s r :
  Forall segment (s :: r) -> rest (Join (s :: r) separator) = Join r separator.
Proof. intros H. unfold rest. rewrite Split_Join_cons by exact H. reflexivity. Qed.

Lemma single_Join s r : Forall segment (s :: r) -> single (Join (s :: r) separator) <-> r = [].
Proof.
  intros H. unfold single. rewrite Split_Join_cons by exact H. simpl.
  destruct r; simpl; split; intros; congruence || lia.
Qed.

Lemma Join_nonempty s r : r <> [] -> Join (s :: r) separator <> "".
Proof. destruct r; [congruence|]. intros _. rewrite Join_cons. destruct s; discriminate. Qed.

Lemma first_segment s : segment s -> first s = s.
Proof. unfold segment, first. intros ->. reflexivity. Qed.

Lemma rest_segment s : segment s -> rest s = "".
Proof. unfold segment, rest. intros ->. reflexivity. Qed.

Lemma single_segment s : single s <-> segment s.
Proof.
  unfold single, segment. split; [|intros ->; reflexivity].
  intros H. pose proof (Join_Split s separator) as HJ.
  destruct (Split s separator) as [|x [|y l]]; simpl in *; try discriminate.
  subst. reflexivity.
Qed.

(** *** Descending along the leading segments *)

(** [getDir] on a single non-empty segment is one lookup among the child
    directories. *)
Lemma getDir_segment d s w :
  segment s -> s <> "" ->
  getDir d s w =
  (let* n := loadDir d in
   match dirs n !! s with
   | Some c => ret c
   | None => fail ErrNotExist
   end) w.
Proof.
  intros Hs Hne. rewrite getDir_eq. destruct (decide (s = "")) as [|_]; [contradiction|].
  rewrite (first_segment s Hs), (rest_segment s Hs).
  unfold bind, loadDir. destruct (dnodes w !! d) as [n|]; [|reflexivity].
  destruct (dirs n !! s); [|reflexivity]. rewrite getDir_eq. reflexivity.
Qed.

Lemma getDir_descend pre : forall more d w,
  Forall segment (pre ++ more) -> more <> [] ->
  getDir d (Join (pre ++ more) separator) w =
  (let* D := walk d pre in getDir D (Join more separator)) w.
Proof.
  induction pre as [|s pre IH]; intros more d w Hseg Hmore; [reflexivity|].
  simpl app in *. rewrite getDir_eq.
  destruct (decide _) as [Hemp|_].
  { exfalso. revert Hemp. apply Join_nonempty. destruct pre; [exact Hmore | discriminate]. }
  rewrite (first_Join _ _ Hseg), (rest_Join _ _ Hseg). simpl walk.
  unfold bind in *. unfold loadDir. destruct (dnodes w !! d) as [n|]; [|reflexivity].
  destruct (dirs n !! s) as [c|]; [|reflexivity].
  apply IH; [inversion Hseg; assumption | exact Hmore].
Qed.

Lemma ReadDir_descend E pre : forall more d w,
  Forall segment (pre ++ more) -> more <> [] ->
  ReadDir E d (Join (pre ++ more) separator) w =
  (let* D := walk d pre in ReadDir E D (Join more separator)) w.
Proof.
  induction pre as [|s pre IH]; intros more d w Hseg Hmore; [reflexivity|].
  simpl app in *. rewrite ReadDir_eq.
  destruct (decide _) as [Hemp|_].
  { exfalso. revert Hemp. apply Join_nonempty. destruct pre; [exact Hmore | discriminate]. }
  rewrite (first_Join _ _ Hseg), (rest_Join _ _ Hseg). simpl walk.
  unfold bind in *. unfold loadDir. destruct (dnodes w !! d) as [n|]; [|reflexivity].
  destruct (dirs n !! s) as [c|]; [|reflexivity].
  apply IH; [inversion Hseg; assumption | exact Hmore].
Qed.

Lemma getFile_descend pre : forall more d w,
  Forall segment (pre ++ more) -> Forall (fun s => s <> "") pre -> more <> [] ->
  getFile d (Join (pre ++ more) separator) w =
  (let* D := walk d pre in getFile D (Join more separator)) w.
Proof.
  induction pre as [|s pre IH]; intros more d w Hseg Hne Hmore; [reflexivity|].
  simpl app in *. rewrite getFile_eq.
  destruct (decide _) as [Hsingle|_].
  { exfalso. apply (single_Join _ _ Hseg) in Hsingle. destruct pre; simpl in *; congruence. }
  rewrite (first_Join _ _ Hseg), (rest_Join _ _ Hseg). simpl walk.
  inversion Hseg as [|? ? Hs Hseg']; subst. inversion Hne as [|? ? Hs0 Hne']; subst.
  rewrite bind_run, (getDir_segment d s w Hs Hs0).
  unfold bind in *. unfold loadDir. destruct (dnodes w !! d) as [n|]; [|reflexivity].
  destruct (dirs n !! s) as [c|]; [|reflexivity].
  simpl. apply IH; assumption.
Qed.

Lemma WriteFile_descend E data perm pre : forall more d w,
  Forall segment (pre ++ more) -> more <> [] ->
  WriteFile E d (Join (pre ++ more) separator) data perm w =
  (let* D := walk d pre in WriteFile E D (Join more separator) data perm) w.
Proof.
  induction pre as [|s pre IH]; intros more d w Hseg Hmore; [reflexivity|].
  simpl app in *. rewrite WriteFile_eq.
  destruct (decide _) as [Hsingle|_].
  { exfalso. apply (single_Join _ _ Hseg) in Hsingle. destruct pre; simpl in *; congruence. }
  rewrite (first_Join _ _ Hseg), (rest_Join _ _ Hseg). simpl walk.
  unfold bind in *. unfold loadDir. destruct (dnodes w !! d) as [n|] eqn:Hd; [|reflexivity].
  destruct (dirs n !! s) as [c|] eqn:Hc; [|reflexivity].
  rewrite Hd, Hc. apply IH; [inversion Hseg; assumption | exact Hmore].
Qed.

(** A path is the join of its segments, and its last segment is one of them. *)
Lemma path_parts path :
  exists pre s, Split path separator = (pre ++ [s])%list /\
                path = Join (pre ++ [s]) separator /\
                Forall segment (pre ++ [s]).
Proof.
  destruct (Split_cons path separator) as (h & t & Hs).
  assert (Hne : Split path separator <> []) by (rewrite Hs; discriminate).
  destruct (exists_last Hne) as (pre & s & Hps).
  exists pre, s. split; [exact Hps|]. rewrite <- Hps. split.
  - symmetry. apply Join_Split.
  - apply Split_segments.
Qed.

Lemma getDir_walk parts : forall d w,
  Forall segment parts -> Forall (fun s => s <> "") parts ->
  getDir d (Join parts separator) w = walk d parts w.
Proof.
  induction parts as [|s r IH]; intros d w Hseg Hne; [reflexivity|].
  inversion Hne as [|? ? Hs Hr]; subst.
  rewrite getDir_eq. destruct (decide _) as [Hemp|_].
  { exfalso. destruct r; [exact (Hs Hemp)|]. revert Hemp. apply Join_nonempty. discriminate. }
  rewrite (first_Join _ _ Hseg), (rest_Join _ _ Hseg). simpl walk.
  unfold bind, loadDir. destruct (dnodes w !! d) as [n|]; [|reflexivity].
  destruct (dirs n !! s) as [c|]; [|reflexivity].
  apply IH; [inversion Hseg; assumption | exact Hr].
Qed.

Lemma walk_run d segs w : exists r, walk d segs w = (r, w) /\ notExistOnly r.
Proof.
  revert d. induction segs as [|s segs IH]; intros d; simpl.
  - eexists; split; [reflexivity | exact I].
  - unfold bind, loadDir. destruct (dnodes w !! d) as [n|].
    + destruct (dirs n !! s) as [c|]; [apply IH|]. eexists; split; reflexivity.
    + eexists; split; [reflexivity | exact I].
Qed.

Lemma Open_eq d name w :
  name <> "" -> name <> "." ->
  Open d name w =
  match getFile d name w with
  | (OK f, w1) => openR f w1
  | (Panic, w1) => (Panic, w1)
  | (Err _, _) =>
      match getDir d name w with
      | (OK n, _) => (OK (HDir n), w)
      | (Panic, _) => (Panic, w)
      | (Err _, _) => (Err (notFound name), w)
      end
  end.
Proof.
  intros H1 H2. unfold Open. destruct (decide _) as [[?|?]|_]; [contradiction..|].
  destruct (getFile_run d name w) as (r & -> & Hr).
  destruct r as [f|e|]; [reflexivity | | reflexivity].
  simpl in Hr. subst e. simpl.
  destruct (getDir_run d name w) as (r & -> & Hr).
  destruct r as [f|e|]; [reflexivity | | reflexivity].
  simpl in Hr. subst e. reflexivity.
Qed.

Lemma multi_not_current name : ~ single name -> name <> "" /\ name <> ".".
Proof. intros H. split; intros ->; apply H; reflexivity. Qed.

(** Claim C3.  When the first segment of the path is the key of a child file
    of the node, [MkdirAll] returns [fs.ErrExist] and the heap is the one it
    started from: the file is untouched, no directory is made, and the
    modification time of the node is not set. *)
Theorem MkdirAll_over_file E f path perm w n :
  dnodes w !! f = Some n ->
  is_Some (files n !! first path) ->
  MkdirAll E f path perm w = (Err ErrExist, w).
Proof.
  intros Hf Hfile. rewrite MkdirAll_equation_1. unfold bind, loadDir. rewrite Hf.
  destruct (decide (is_Some (files n !! first path))); [reflexivity | contradiction].
Qed.

(** Claim C4.  For a path of more than one segment whose first segment is
    not the key of a child directory of the node, [WriteFile] returns
    [fs.ErrNotExist] and the heap is the one it started from: no directory
    and no file node is made. *)
Theorem WriteFile_missing_dir E f path data perm w n :
  ~ single path ->
  dnodes w !! f = Some n ->
  dirs n !! first path = None ->
  WriteFile E f path data perm w = (Err ErrNotExist, w).
Proof.
  intros Hmulti Hf Hdir. rewrite WriteFile_eq.
  destruct (decide (single path)); [contradiction|].
  unfold bind, loadDir. rewrite Hf, Hdir. reflexivity.
Qed.

(** Claim C6, as amended.  For every path other than [""] and ["."] (for
    those [Open] returns the node itself and looks nothing up), [Open] looks
    for a file first: when [getFile] finds one, the result is its read
    handle, whatever [getDir] would say.  [getFile] fails only with
    [fs.ErrNotExist], and only then is [getDir] tried: a directory found is
    the result; when it fails as well, [Open] returns the error made by
    [fmt.Errorf], which carries the path in its message and wraps
    [fs.ErrNotExist].  No lookup changes the heap. *)
Theorem Open_lookup_order d name w :
  name <> "" -> name <> "." ->
  (forall f w1, getFile d name w = (OK f, w1) -> Open d name w = openR f w1) /\
  (forall e w1, getFile d name w = (Err e, w1) ->
     e = ErrNotExist /\ w1 = w /\
     (forall n w2, getDir d name w1 = (OK n, w2) -> Open d name w = (OK (HDir n), w2)) /\
     (forall e' w2, getDir d name w1 = (Err e', w2) ->
        e' = ErrNotExist /\ w2 = w /\
        Open d name w =
          (Err (Wrapped ("no such file or directory: " ++ name ++ ": file does not exist")
                        ErrNotExist), w2) /\
        wrapsNotExist (notFound name) = true)).
Proof.
  intros H1 H2. rewrite (Open_eq d name w H1 H2).
  destruct (getFile_run d name w) as (r & Hr & Hne). rewrite Hr.
  split; [intros f w1 [= -> <-]; reflexivity|].
  intros e w1 [= -> <-]. simpl in Hne. subst e.
  split; [reflexivity|]. split; [reflexivity|].
  destruct (getDir_run d name w) as (r & Hr' & Hne'). rewrite Hr'.
  split; [intros n w2 [= -> <-]; reflexivity|].
  intros e' w2 [= -> <-]. simpl in Hne'. subst e'. repeat split.
Qed.

Lemma Forall_nonempty_segment_last pre s :
  Forall (fun x => x <> "") (pre ++ [s]) -> Forall (fun x => x <> "") pre /\ s <> "".
Proof. intros H. apply Forall_app in H as [H1 H2]. inversion H2; auto. Qed.

(** A missing directory among the leading segments fails every resolver. *)
Lemma missing_intermediate E d name w pre s post D n :
  Split name separator = (pre ++ s :: post)%list -> post <> [] ->
  walk d pre w = (OK D, w) -> dnodes w !! D = Some n -> dirs n !! s = None ->
  fst (getDir d name w) = Err ErrNotExist /\
  fst (ReadDir E d name w) = Err ErrNotExist /\
  (Forall (fun x => x <> "") (pre ++ [s]) ->
   fst (getFile d name w) = Err ErrNotExist /\
   fst (Open d name w) = Err (notFound name)).
Proof.
  intros Hsplit Hpost Hwalk HD Hs.
  assert (Hseg : Forall segment (pre ++ s :: post)).
  { rewrite <- Hsplit. apply Split_segments. }
  assert (Hname : name = Join (pre ++ s :: post) separator).
  { rewrite <- Hsplit. symmetry. apply Join_Split. }
  assert (Hseg' : Forall segment (s :: post)) by (apply Forall_app in Hseg; tauto).
  assert (HgD : fst (getDir d name w) = Err ErrNotExist).
  { rewrite Hname, getDir_descend by (exact Hseg || discriminate).
    rewrite bind_run, Hwalk, getDir_eq.
    destruct (decide _) as [Hemp|_]; [exfalso; revert Hemp; apply Join_nonempty, Hpost|].
    rewrite (first_Join _ _ Hseg'). unfold bind, loadDir. rewrite HD, Hs. reflexivity. }
  split; [exact HgD|]. split.
  - rewrite Hname, ReadDir_descend by (exact Hseg || discriminate).
    rewrite bind_run, Hwalk, ReadDir_eq.
    destruct (decide _) as [Hemp|_]; [exfalso; revert Hemp; apply Join_nonempty, Hpost|].
    rewrite (first_Join _ _ Hseg'). unfold bind, loadDir. rewrite HD, Hs. reflexivity.
  - intros Hne. apply Forall_nonempty_segment_last in Hne as [Hpre Hsne].
    assert (HgF : fst (getFile d name w) = Err ErrNotExist).
    { rewrite Hname, getFile_descend by (exact Hseg || exact Hpre || discriminate).
      rewrite bind_run, Hwalk, getFile_eq.
      destruct (decide _) as [Hsingle|_].
      { exfalso. apply (single_Join _ _ Hseg') in Hsingle. contradiction. }
      rewrite (first_Join _ _ Hseg'), bind_run.
      rewrite getDir_segment by (inversion Hseg'; assumption).
      unfold bind, loadDir. rewrite HD, Hs. reflexivity. }
    split; [exact HgF|].
    assert (Hmulti : ~ single name).
    { unfold single. rewrite Hsplit, length_app. simpl. destruct post; [congruence|]. simpl. lia. }
    destruct (multi_not_current name Hmulti) as [H1 H2].
    rewrite (Open_eq d name w H1 H2).
    destruct (getFile d name w) as [[f|e|] w1]; try discriminate.
    destruct (getDir d name w) as [[f|e'|] w2]; try discriminate. reflexivity.
Qed.

(** A last segment that is the key of neither child map fails them too. *)
Lemma missing_final E d name w pre s D n :
  Split name separator = (pre ++ [s])%list -> s <> "" ->
  walk d pre w = (OK D, w) -> dnodes w !! D = Some n ->
  files n !! s = None -> dirs n !! s = None ->
  fst (getDir d name w) = Err ErrNotExist /\
  fst (ReadDir E d name w) = Err ErrNotExist /\
  (Forall (fun x => x <> "") pre ->
   fst (getFile d name w) = Err ErrNotExist /\
   (name <> "." -> fst (Open d name w) = Err (notFound name))).
Proof.
  intros Hsplit Hsne Hwalk HD Hfile Hdir.
  assert (Hseg : Forall segment (pre ++ [s])).
  { rewrite <- Hsplit. apply Split_segments. }
  assert (Hname : name = Join (pre ++ [s]) separator).
  { rewrite <- Hsplit. symmetry. apply Join_Split. }
  assert (Hs : segment s) by (apply Forall_app in Hseg as [_ H]; inversion H; assumption).
  assert (HgD : fst (getDir d name w) = Err ErrNotExist).
  { rewrite Hname, getDir_descend by (exact Hseg || discriminate).
    rewrite bind_run, Hwalk. simpl Join. rewrite getDir_segment by assumption.
    unfold bind, loadDir. rewrite HD, Hdir. reflexivity. }
  split; [exact HgD|]. split.
  - rewrite Hname, ReadDir_descend by (exact Hseg || discriminate).
    rewrite bind_run, Hwalk. simpl Join. rewrite ReadDir_eq.
    destruct (decide _) as [|_]; [contradiction|].
    rewrite (first_segment s Hs). unfold bind, loadDir. rewrite HD, Hdir. reflexivity.
  - intros Hpre.
    assert (HgF : fst (getFile d name w) = Err ErrNotExist).
    { rewrite Hname, getFile_descend by (exact Hseg || exact Hpre || discriminate).
      rewrite bind_run, Hwalk. simpl Join. rewrite getFile_eq.
      destruct (decide _) as [_|Hns]; [|exfalso; apply Hns, single_segment, Hs].
      unfold bind, loadDir. rewrite HD, Hfile. reflexivity. }
    split; [exact HgF|]. intros Hdot.
    assert (Hemp : name <> "").
    { intros ->. simpl in Hsplit. destruct pre as [|? [|]]; simpl in Hsplit; congruence. }
    rewrite (Open_eq d name w Hemp Hdot).
    destruct (getFile d name w) as [[f|e|] w1]; try discriminate.
    destruct (getDir d name w) as [[f|e'|] w2]; try discriminate. reflexivity.
Qed.

(** Claim C7, as amended.  The resolvers [Open], [getFile], [getDir] and
    [ReadDir] leave the heap as it was, whether they succeed or fail.
    [getDir] and [ReadDir] fail with [fs.ErrNotExist] at the first leading
    segment that is not the key of a child directory of the node reached so
    far; [getFile] does, and [Open] fails with the error that wraps it, when
    that segment and the ones before it are non-empty ([getFile] takes an
    empty leading segment for the node itself).  At a non-empty last segment
    that is the key of neither child map of the node reached, [getDir] and
    [ReadDir] fail with [fs.ErrNotExist], [getFile] does when the segments
    before it are non-empty, and then [Open] fails with the error that wraps
    it unless the path is ["."]. *)
Theorem resolution_reads_and_fails E d name w :
  (snd (Open d name w) = w /\ snd (getFile d name w) = w /\
   snd (getDir d name w) = w /\ snd (ReadDir E d name w) = w) /\
  (forall pre s post D n,
     Split name separator = (pre ++ s :: post)%list -> post <> [] ->
     walk d pre w = (OK D, w) -> dnodes w !! D = Some n -> dirs n !! s = None ->
     fst (getDir d name w) = Err ErrNotExist /\
     fst (ReadDir E d name w) = Err ErrNotExist /\
     (Forall (fun x => x <> "") (pre ++ [s]) ->
      fst (getFile d name w) = Err ErrNotExist /\
      fst (Open d name w) = Err (notFound name))) /\
  (forall pre s D n,
     Split name separator = (pre ++ [s])%list -> s <> "" ->
     walk d pre w = (OK D, w) -> dnodes w !! D = Some n ->
     files n !! s = None -> dirs n !! s = None ->
     fst (getDir d name w) = Err ErrNotExist /\
     fst (ReadDir E d name w) = Err ErrNotExist /\
     (Forall (fun x => x <> "") pre ->
      fst (getFile d name w) = Err ErrNotExist /\
      (name <> "." -> fst (Open d name w) = Err (notFound name)))).
Proof.
  split; [|split].
  - repeat split; [apply Open_reads | apply getFile_reads | apply getDir_reads | apply ReadDir_reads].
  - intros. eapply missing_intermediate; eassumption.
  - intros. eapply missing_final; eassumption.
Qed.

Lemma trailing_not_current p : p ++ "/" <> "" /\ p ++ "/" <> ".".
Proof.
  assert (H : ~ single (p ++ "/")).
  { unfold single. change (p ++ "/") with (p ++ String separator "").
    rewrite Split_snoc_sep, length_app. simpl.
    destruct (Split_cons p separator) as (h & t & ->). simpl. lia. }
  apply multi_not_current, H.
Qed.

(** On a single non-empty segment followed by the separator, [getDir] does
    what it does on the segment alone. *)
Lemma getDir_segment_trailing d s w :
  segment s -> s <> "" ->
  getDir d (Join [s; ""] separator) w = getDir d s w.
Proof.
  intros Hs Hne.
  assert (Hseg : Forall segment [s; ""]) by (repeat constructor; assumption).
  rewrite (getDir_segment d s w Hs Hne), getDir_eq.
  destruct (decide _) as [Hemp|_]; [exfalso; revert Hemp; apply Join_nonempty; discriminate|].
  rewrite (first_Join _ _ Hseg), (rest_Join _ _ Hseg). simpl Join.
  unfold bind, loadDir. destruct (dnodes w !! d) as [n|]; [|reflexivity].
  destruct (dirs n !! s); [|reflexivity]. rewrite getDir_eq. reflexivity.
Qed.

(** A trailing separator after a non-empty last segment does not change what
    [getDir] resolves the path to. *)
Lemma getDir_trailing d p w :
  List.last (Split p separator) "" <> "" ->
  getDir d (p ++ "/") w = getDir d p w.
Proof.
  intros Hlast. destruct (path_parts p) as (pre & s & Hsplit & Hname & Hseg).
  rewrite Hsplit, last_last in Hlast.
  assert (Hs : segment s) by (apply Forall_app in Hseg as [_ H]; inversion H; assumption).
  assert (Hp : p ++ "/" = Join (pre ++ [s; ""]) separator).
  { change (p ++ "/") with (p ++ String separator "").
    rewrite <- (Join_Split (p ++ String separator "") separator), Split_snoc_sep, Hsplit.
    rewrite <- app_assoc. reflexivity. }
  assert (Hseg' : Forall segment (pre ++ [s; ""])).
  { apply Forall_app in Hseg as [Hpre _]. apply Forall_app. split; [exact Hpre|].
    repeat constructor. exact Hs. }
  rewrite Hp, Hname.
  rewrite !getDir_descend by (assumption || discriminate).
  apply bind_ext. intros D w1. rewrite getDir_segment_trailing by assumption. reflexivity.
Qed.

(** When no segment of [p] is empty, the file lookup for [p] followed by the
    separator ends at the file with the empty name in the directory that
    [getDir] resolves [p] to. *)
Lemma getFile_trailing d p w n nd :
  Forall (fun s => s <> "") (Split p separator) ->
  getDir d p w = (OK n, w) ->
  dnodes w !! n = Some nd ->
  getFile d (p ++ "/") w =
  match files nd !! "" with
  | Some f => (OK f, w)
  | None => (Err ErrNotExist, w)
  end.
Proof.
  intros Hne Hdir Hn.
  pose proof (Split_segments p) as Hseg.
  assert (Hwalk : walk d (Split p separator) w = (OK n, w)).
  { rewrite <- getDir_walk by assumption. rewrite Join_Split. exact Hdir. }
  assert (Hseg' : Forall segment (Split p separator ++ [""])).
  { apply Forall_app. split; [exact Hseg | repeat constructor]. }
  assert (Hp : p ++ "/" = Join (Split p separator ++ [""]) separator).
  { change (p ++ "/") with (p ++ String separator "").
    rewrite <- Split_snoc_sep. symmetry. apply Join_Split. }
  rewrite Hp, getFile_descend by (assumption || discriminate).
  rewrite bind_run, Hwalk. simpl Join. rewrite getFile_eq.
  destruct (decide _) as [_|Hns]; [|exfalso; apply Hns; reflexivity].
  unfold bind, loadDir. rewrite Hn. destruct (files nd !! ""); reflexivity.
Qed.

(** Claim C10, as amended.  Let the last segment of [p] be non-empty (so [p]
    is not empty and does not end in the separator) and let [getDir] resolve
    [p] to the directory [n].  Then [Open] on [p] followed by the separator
    returns [n], provided the file lookup that [Open] tries first finds no
    file for that path.  (By [getFile_trailing], when no segment of [p] is
    empty the file lookup finds a file exactly when [n] has a child file
    whose key is the empty string.) *)
Theorem Open_trailing_separator d p w n :
  List.last (Split p separator) "" <> "" ->
  getDir d p w = (OK n, w) ->
  fst (getFile d (p ++ "/") w) = Err ErrNotExist ->
  Open d (p ++ "/") w = (OK (HDir n), w).
Proof.
  intros Hlast Hdir Hfile.
  destruct (trailing_not_current p) as [H1 H2].
  rewrite (Open_eq d _ w H1 H2).
  destruct (getFile d (p ++ "/") w) as [r w1]. simpl in Hfile. subst r.
  rewrite (getDir_trailing d p w Hlast), Hdir. reflexivity.
Qed.

(** *** Reading a file handle to its end *)

Lemma readAll_eq h k acc :
  readAll h k acc =
  match readHandle h (S k) with
  | (bs, None, h') => readAll h' k (acc ++ bs)%list
  | (bs, Some EOF, _) => OK (acc ++ bs)%list
  | (bs, Some e, _) => Err e
  end.
Proof.
  rewrite readAll_equation_1. unfold Equations.Prop.Logic.inspect.
  assert (H : forall y (Heq : readHandle h (S k) = y),
             readAll_unfold_clause_1 h k (exist _ y Heq) acc =
             match y with
             | (bs, None, h') => readAll h' k (acc ++ bs)%list
             | (bs, Some EOF, _) => OK (acc ++ bs)%list
             | (bs, Some e, _) => Err e
             end).
  { intros [[bs [e|]] h'] Heq; [destruct e|]; reflexivity. }
  apply H.
Qed.

Lemma readAll_file k : forall m r acc,
  length (r_data r) - r_pos r = m ->
  readAll (HFile r) k acc = OK (acc ++ drop (r_pos r) (r_data r))%list.
Proof.
  induction m as [m IH] using lt_wf_ind. intros r acc Hm.
  rewrite readAll_eq. simpl readHandle. unfold readFile.
  destruct (decide (length (r_data r) <= r_pos r)) as [Hle|Hlt].
  - rewrite drop_ge by exact Hle. reflexivity.
  - set (chunk := take (S k) (drop (r_pos r) (r_data r))).
    assert (Hlen : length chunk = Nat.min (S k) (length (r_data r) - r_pos r)).
    { unfold chunk. rewrite length_take, length_drop. reflexivity. }
    rewrite (IH (length (r_data r) - (r_pos r + length chunk))); simpl; [|lia|reflexivity].
    f_equal. rewrite <- app_assoc. f_equal.
    rewrite <- (take_drop (S k) (drop (r_pos r) (r_data r))) at 1. fold chunk. f_equal.
    rewrite drop_drop. destruct (decide (S k <= length (r_data r) - r_pos r)) as [Hk|Hk].
    + f_equal. lia.
    + rewrite !drop_ge by lia. reflexivity.
Qed.

Lemma readAll_fresh f data k : readAll (HFile (mkReader f data 0)) k [] = OK data.
Proof. rewrite (readAll_file k _ _ [] eq_refl). reflexivity. Qed.

(** *** Writing a file, then finding it *)

Lemma walk_sameDirs w w' segs : forall d D,
  sameDirs w w' -> walk d segs w = (OK D, w) -> walk d segs w' = (OK D, w').
Proof.
  induction segs as [|s segs IH]; intros d D Hsame; simpl.
  - intros [= ->]. reflexivity.
  - unfold bind, loadDir. destruct (dnodes w !! d) as [n|] eqn:Hd; [|discriminate].
    destruct (Hsame _ _ Hd) as (n' & -> & ->).
    destruct (dirs n !! s) as [c|]; [|discriminate]. apply IH, Hsame.
Qed.

(** What [WriteFile] does at the last segment. *)
Lemma WriteFile_leaf E D s data perm w w' :
  segment s ->
  WriteFile E D s data perm w = (OK tt, w') ->
  sameDirs w w' /\
  exists f fl, getFile D s w' = (OK f, w') /\
               fnodes w' !! f = Some fl /\ bytes (content fl) = data.
Proof.
  intros Hs. rewrite WriteFile_eq, getFile_eq.
  destruct (decide (single s)) as [_|Hns]; [|exfalso; apply Hns, single_segment, Hs].
  rewrite (first_segment s Hs). unfold bind at 1. unfold loadDir at 1.
  destruct (dnodes w !! D) as [n|] eqn:HD; [|discriminate].
  destruct (files n !! s) as [ex|] eqn:Hex.
  - unfold overwrite. destruct (validMode E perm); [|discriminate].
    unfold bind, timeNow, updFile. simpl.
    destruct (fnodes w !! ex) as [fl|] eqn:Hfl; [|discriminate].
    intros [= <-]. split.
    + intros p m Hp. exists m. simpl. auto.
    + unfold loadDir. simpl. rewrite HD, Hex.
      eexists _, _. split; [reflexivity|]. split; [apply lookup_insert_eq | reflexivity].
  - unfold bind, timeNow, allocFile, updDir. simpl. rewrite HD.
    intros [= <-]. split.
    + intros p m Hp. simpl. destruct (decide (D = p)) as [->|Hne].
      * rewrite lookup_insert_eq. eexists; split; [reflexivity|].
        rewrite Hp in HD. injection HD as ->. reflexivity.
      * rewrite lookup_insert_ne by exact Hne. eauto.
    + unfold loadDir. simpl. rewrite lookup_insert_eq. simpl. rewrite lookup_insert_eq.
      eexists _, _. split; [reflexivity|]. split; [apply lookup_insert_eq | reflexivity].
Qed.

Lemma WriteFile_then_getFile E d path data perm w w' :
  Forall (fun s => s <> "") (removelast (Split path separator)) ->
  WriteFile E d path data perm w = (OK tt, w') ->
  exists f fl, getFile d path w' = (OK f, w') /\
               fnodes w' !! f = Some fl /\ bytes (content fl) = data.
Proof.
  intros Hne. destruct (path_parts path) as (pre & s & Hsplit & Hname & Hseg).
  rewrite Hsplit, removelast_last in Hne. rewrite Hname.
  rewrite WriteFile_descend by (exact Hseg || discriminate).
  rewrite bind_run. destruct (walk_run d pre w) as (r & Hwalk & _). rewrite Hwalk.
  destruct r as [D|e|]; [|discriminate..]. simpl Join. intros Hwrite.
  assert (Hs : segment s) by (apply Forall_app in Hseg as [_ H]; inversion H; assumption).
  destruct (WriteFile_leaf E D s data perm w w' Hs Hwrite) as (Hsame & f & fl & Hget & Hf & Hdata).
  exists f, fl. split; [|auto].
  rewrite getFile_descend by (exact Hseg || exact Hne || discriminate).
  rewrite bind_run, (walk_sameDirs w w' pre d D Hsame Hwalk). exact Hget.
Qed.

(** Claim C1, as amended.  Let [path] be neither [""] nor ["."], and let
    none of its segments but the last be empty.  When [WriteFile] succeeds on
    it, [Open] on the same path in the heap it leaves returns a handle, and
    reading that handle to its end yields exactly [data], whatever the size
    of the slices read with. *)
Theorem WriteFile_Open_roundtrip E d path data perm w w' :
  path <> "" -> path <> "." ->
  Forall (fun s => s <> "") (removelast (Split path separator)) ->
  WriteFile E d path data perm w = (OK tt, w') ->
  exists h, Open d path w' = (OK h, w') /\ forall k, readAll h k [] = OK data.
Proof.
  intros H1 H2 Hne Hwrite.
  destruct (WriteFile_then_getFile E d path data perm w w' Hne Hwrite)
    as (f & fl & Hget & Hf & Hdata).
  exists (HFile (mkReader f data 0)). split; [|intros k; apply readAll_fresh].
  rewrite (Open_eq d path w' H1 H2), Hget.
  unfold openR, bind, loadFile. rewrite Hf, Hdata. reflexivity.
Qed.

(** *** [MkdirAll], level by level *)

Lemma MkdirAll_eq E f path perm w :
  MkdirAll E f path perm w =
  (let* _ := mkdirStep E f (first path) perm in
   if decide (single path) then ret tt
   else let* n := loadDir f in
        match dirs n !! first path with
        | Some c => MkdirAll E c (rest path) perm
        | None => panic
        end) w.
Proof.
  rewrite MkdirAll_equation_1. unfold mkdirStep. rewrite bind_assoc.
  apply bind_ext. intros n w1.
  destruct (decide (is_Some (files n !! first path))); [reflexivity|].
  rewrite bind_assoc. apply bind_ext. intros n1 w2.
  rewrite bind_assoc. apply bind_ext. intros _ w3.
  rewrite bind_assoc. apply bind_ext. intros now w4.
  apply bind_ext. intros _ w5.
  destruct (decide (single path)); reflexivity.
Qed.

Lemma fresh_dir_new (w : world) : dnodes w !! fresh (dom (dnodes w)) = None.
Proof. apply not_elem_of_dom, is_fresh. Qed.

(** The heap that [mkdirStep] leaves, case by case. *)
Lemma mkdirStep_run E f s perm w :
  mkdirStep E f s perm w =
  match dnodes w !! f with
  | None => (Panic, w)
  | Some n =>
      if decide (is_Some (files n !! s)) then (Err ErrExist, w)
      else match dirs n !! s with
           | Some _ =>
               (OK tt, mkWorld (<[f := setDirInfo (setModified (clock E (ticks w))) n]> (dnodes w))
                               (fnodes w) (S (ticks w)))
           | None =>
               let c := fresh (dom (dnodes w)) in
               (OK tt, mkWorld (<[f := setDirInfo (setModified (clock E (S (ticks w))))
                                         (setChildDir s c n)]>
                                  (<[c := newDir s (clock E (ticks w)) perm]> (dnodes w)))
                               (fnodes w) (S (S (ticks w))))
           end
  end.
Proof.
  unfold mkdirStep, bind, loadDir. destruct (dnodes w !! f) as [n|] eqn:Hf; [|reflexivity].
  destruct (decide _); [reflexivity|]. rewrite Hf.
  destruct (dirs n !! s) as [c|] eqn:Hs.
  - unfold ret, timeNow, updDir. simpl. rewrite Hf. reflexivity.
  - unfold timeNow, allocDir, updDir. simpl.
    assert (Hne : fresh (dom (dnodes w)) <> f).
    { intros Heq. pose proof (fresh_dir_new w) as Hfr. rewrite Heq, Hf in Hfr. discriminate. }
    rewrite lookup_insert_ne by exact Hne. rewrite Hf. simpl.
    rewrite lookup_insert_eq, insert_insert_eq. reflexivity.
Qed.

(** *** The invariant *)

Lemma treeOK_insert w p n fs t :
  treeOK w -> nodeOK n -> treeOK (mkWorld (<[p := n]> (dnodes w)) fs t).
Proof. unfold treeOK. simpl. intros H Hn. apply map_Forall_insert_2; assumption. Qed.

Lemma nodeOK_lookup w p n : treeOK w -> dnodes w !! p = Some n -> nodeOK n.
Proof. intros H Hp. exact (H p n Hp). Qed.

Lemma nodeOK_setDirInfo g n : nodeOK n -> nodeOK (setDirInfo g n).
Proof. auto. Qed.

Lemma nodeOK_setChildDir s c n : nodeOK n -> files n !! s = None -> nodeOK (setChildDir s c n).
Proof.
  unfold nodeOK. simpl. intros H Hs. rewrite dom_insert_L.
  apply disjoint_union_l. split; [|exact H].
  apply disjoint_singleton_l, not_elem_of_dom, Hs.
Qed.

Lemma nodeOK_setChildFile s c n : nodeOK n -> dirs n !! s = None -> nodeOK (setChildFile s c n).
Proof.
  unfold nodeOK. simpl. intros H Hs. rewrite dom_insert_L.
  apply disjoint_union_r. split; [|exact H].
  apply disjoint_singleton_r, not_elem_of_dom, Hs.
Qed.

Lemma nodeOK_newDir s t perm : nodeOK (newDir s t perm).
Proof. unfold nodeOK. simpl. rewrite dom_empty_L. apply disjoint_empty_l. Qed.

Lemma mkdirStep_treeOK E f s perm w : treeOK w -> treeOK (snd (mkdirStep E f s perm w)).
Proof.
  intros Hw. rewrite mkdirStep_run. destruct (dnodes w !! f) as [n|] eqn:Hf; [|exact Hw].
  pose proof (nodeOK_lookup w f n Hw Hf) as Hn.
  destruct (decide _) as [|Hfile]; [exact Hw|].
  assert (Hnone : files n !! s = None).
  { destruct (files n !! s) eqn:Heq; [exfalso; apply Hfile; eauto | reflexivity]. }
  destruct (dirs n !! s) as [c|]; simpl.
  - apply treeOK_insert; [exact Hw | apply nodeOK_setDirInfo, Hn].
  - apply (treeOK_insert (mkWorld _ (fnodes w) (ticks w))).
    + apply treeOK_insert; [exact Hw | apply nodeOK_newDir].
    + apply nodeOK_setDirInfo, nodeOK_setChildDir; assumption.
Qed.

Lemma MkdirAll_treeOK E perm path : forall f w,
  treeOK w -> treeOK (snd (MkdirAll E f path perm w)).
Proof.
  induction path as [path IH] using path_ind. intros f w Hw.
  rewrite MkdirAll_eq, bind_run.
  pose proof (mkdirStep_treeOK E f (first path) perm w Hw) as Hstep.
  destruct (mkdirStep E f (first path) perm w) as [[[]|e|] w1]; simpl in Hstep; [|exact Hstep..].
  destruct (decide (single path)) as [|Hmulti]; [exact Hstep|].
  unfold bind, loadDir. destruct (dnodes w1 !! f) as [n|]; [|exact Hstep].
  destruct (dirs n !! first path) as [c|]; [|exact Hstep].
  apply IH; [apply not_single_rest_shorter, Hmulti | exact Hstep].
Qed.

Lemma WriteFile_leaf_treeOK E D s data perm w :
  segment s ->
  (forall n, dnodes w !! D = Some n -> dirs n !! s = None) ->
  treeOK w -> treeOK (snd (WriteFile E D s data perm w)).
Proof.
  intros Hs Hfree Hw. rewrite WriteFile_eq.
  destruct (decide (single s)) as [_|Hns]; [|exfalso; apply Hns, single_segment, Hs].
  rewrite (first_segment s Hs). unfold bind at 1. unfold loadDir at 1.
  destruct (dnodes w !! D) as [n|] eqn:HD; [|exact Hw].
  destruct (files n !! s) as [ex|] eqn:Hex.
  - unfold overwrite. destruct (validMode E perm); [|exact Hw].
    unfold bind, timeNow, updFile. simpl.
    destruct (fnodes w !! ex); simpl; exact Hw.
  - unfold bind, timeNow, allocFile, updDir. simpl. rewrite HD. simpl.
    apply treeOK_insert; [exact Hw|].
    apply nodeOK_setChildFile; [exact (nodeOK_lookup w D n Hw HD) | exact (Hfree n eq_refl)].
Qed.

Lemma WriteFile_treeOK E d path data perm w :
  ~ writesOverDir d path w ->
  treeOK w -> treeOK (snd (WriteFile E d path data perm w)).
Proof.
  intros Hfree Hw. destruct (path_parts path) as (pre & s & Hsplit & Hname & Hseg).
  unfold writesOverDir in Hfree. rewrite Hsplit, removelast_last, last_last in Hfree.
  rewrite Hname, WriteFile_descend by (exact Hseg || discriminate).
  rewrite bind_run. destruct (walk_run d pre w) as (r & Hwalk & _). rewrite Hwalk.
  destruct r as [D|e|]; [|exact Hw..]. simpl Join.
  apply WriteFile_leaf_treeOK; [|  |exact Hw].
  - apply Forall_app in Hseg as [_ H]. inversion H; assumption.
  - intros n HD. destruct (dirs n !! s) eqn:Hd; [|reflexivity].
    exfalso. apply Hfree. exists D, n. rewrite Hd. eauto.
Qed.

(** Claim C2, as amended.  A call of [MkdirAll], [Open] or [ReadDir] on a
    heap in which no directory node has a name in both of its child maps
    leaves such a heap, whatever the call returns; so does a call of
    [WriteFile] unless the last segment of its path is the key of a child
    directory of the directory it writes into. *)
Theorem calls_preserve_treeOK E c d w :
  treeOK w -> keepsApart c d w -> treeOK (after E c d w).
Proof.
  intros Hw Hc. destruct c as [path perm|path data perm|name|name]; simpl in *.
  - apply MkdirAll_treeOK, Hw.
  - apply WriteFile_treeOK; assumption.
  - rewrite Open_reads. exact Hw.
  - rewrite ReadDir_reads. exact Hw.
Qed.

(** *** What [MkdirAll] changes *)

Lemma sameIdentity_trans i1 i2 i3 :
  sameIdentity i1 i2 -> sameIdentity i2 i3 -> sameIdentity i1 i3.
Proof. unfold sameIdentity. intuition congruence. Qed.

Lemma readDuring_widen E w1 w2 w3 w4 t :
  ticks w1 <= ticks w2 -> ticks w3 <= ticks w4 ->
  readDuring E w2 w3 t -> readDuring E w1 w4 t.
Proof. intros H1 H2 (k & Hk & ->). exists k. split; [lia | reflexivity]. Qed.

Lemma mkdirRel_refl E w : mkdirRel E w w.
Proof.
  split; [lia|]. intros p n Hp. exists n.
  repeat split; auto.
Qed.

Lemma mkdirRel_trans E w1 w2 w3 : mkdirRel E w1 w2 -> mkdirRel E w2 w3 -> mkdirRel E w1 w3.
Proof.
  intros [Ht1 H1] [Ht2 H2]. split; [lia|]. intros p n Hp.
  destruct (H1 p n Hp) as (n2 & Hp2 & Hd2 & Hi2 & Hm2).
  destruct (H2 p n2 Hp2) as (n3 & Hp3 & Hd3 & Hi3 & Hm3).
  exists n3. split; [exact Hp3|]. split; [etrans; eassumption|].
  split; [eapply sameIdentity_trans; eassumption|].
  destruct Hm3 as [Hm3|Hm3].
  - rewrite Hm3. destruct Hm2 as [Hm2|Hm2]; [left; exact Hm2 | right].
    eapply readDuring_widen; [| |exact Hm2]; lia.
  - right. eapply readDuring_widen; [| |exact Hm3]; lia.
Qed.

Lemma mkdirStep_rel E f s perm w : mkdirRel E w (snd (mkdirStep E f s perm w)).
Proof.
  rewrite mkdirStep_run. destruct (dnodes w !! f) as [n|] eqn:Hf; [|apply mkdirRel_refl].
  destruct (decide _) as [|Hfile]; [apply mkdirRel_refl|].
  destruct (dirs n !! s) as [c|] eqn:Hs; simpl.
  - split; [simpl; lia|]. intros p m Hp. simpl.
    destruct (decide (f = p)) as [->|Hne].
    + rewrite lookup_insert_eq. rewrite Hf in Hp. injection Hp as <-.
      eexists. split; [reflexivity|]. split; [reflexivity|]. split; [repeat split|].
      right. exists (ticks w). simpl. split; [lia | reflexivity].
    + rewrite lookup_insert_ne by exact Hne. exists m.
      repeat split; auto.
  - split; [simpl; lia|]. intros p m Hp. simpl.
    destruct (decide (f = p)) as [->|Hne].
    + rewrite lookup_insert_eq. rewrite Hf in Hp. injection Hp as <-.
      eexists. split; [reflexivity|]. split; [|split; [repeat split|]].
      * simpl. apply insert_subseteq, Hs.
      * right. exists (S (ticks w)). simpl. split; [lia | reflexivity].
    + rewrite lookup_insert_ne by exact Hne.
      assert (Hc : fresh (dom (dnodes w)) <> p).
      { intros Heq. pose proof (fresh_dir_new w) as Hfr. rewrite Heq, Hp in Hfr. discriminate. }
      rewrite lookup_insert_ne by exact Hc. exists m. repeat split; auto.
Qed.

Lemma MkdirAll_rel E perm path : forall f w, mkdirRel E w (snd (MkdirAll E f path perm w)).
Proof.
  induction path as [path IH] using path_ind. intros f w.
  rewrite MkdirAll_eq, bind_run.
  pose proof (mkdirStep_rel E f (first path) perm w) as Hstep.
  destruct (mkdirStep E f (first path) perm w) as [[[]|e|] w1]; simpl in Hstep; [|exact Hstep..].
  destruct (decide (single path)) as [|Hmulti]; [exact Hstep|].
  unfold bind, loadDir. destruct (dnodes w1 !! f) as [n|]; [|exact Hstep].
  destruct (dirs n !! first path) as [c|]; [|exact Hstep].
  eapply mkdirRel_trans; [exact Hstep|].
  apply IH, not_single_rest_shorter, Hmulti.
Qed.

(** Claim C9.  When [MkdirAll] succeeds, the node it was called on is still
    there with the same name, size, directory flag and mode, and its
    modification time is a reading of the clock taken during the call,
    whether the child directory named by the first segment was there before
    or not.  A child that was there stays under its key.  A child that was
    not is a node that did not exist before, with the first segment as its
    name, size 256, the directory flag, the mode given, and as modification
    time a reading of the clock taken during the call.  For a path of one
    segment the readings are the next ones: the first for the new child,
    the one after it for the node. *)
Theorem MkdirAll_sets_times E f path perm w w' :
  MkdirAll E f path perm w = (OK tt, w') ->
  exists n n',
    dnodes w !! f = Some n /\ dnodes w' !! f = Some n' /\
    sameIdentity (dir_info n) (dir_info n') /\
    readDuring E w w' (modified (dir_info n')) /\
    match dirs n !! first path with
    | Some c0 =>
        dirs n' !! first path = Some c0 /\
        (single path -> modified (dir_info n') = clock E (ticks w))
    | None =>
        exists c nc,
          dirs n' !! first path = Some c /\
          dnodes w !! c = None /\ dnodes w' !! c = Some nc /\
          name (dir_info nc) = first path /\ size (dir_info nc) = 256%Z /\
          isDir (dir_info nc) = true /\ mode (dir_info nc) = perm /\
          readDuring E w w' (modified (dir_info nc)) /\
          (single path ->
           modified (dir_info n') = clock E (S (ticks w)) /\
           nc = newDir (first path) (clock E (ticks w)) perm)
    end.
Proof.
  rewrite MkdirAll_eq, bind_run, mkdirStep_run.
  destruct (dnodes w !! f) as [n|] eqn:Hf; [|discriminate].
  destruct (decide _) as [|Hfile]; [discriminate|].
  destruct (dirs n !! first path) as [c0|] eqn:Hs.
  - (* the child directory was there *)
    set (n1 := setDirInfo (setModified (clock E (ticks w))) n).
    set (w1 := mkWorld (<[f := n1]> (dnodes w)) (fnodes w) (S (ticks w))).
    assert (Hf1 : dnodes w1 !! f = Some n1) by apply lookup_insert_eq.
    destruct (decide (single path)) as [Hsingle|Hmulti].
    + intros [= <-]. exists n, n1. rewrite Hs.
      split; [reflexivity|]. split; [exact Hf1|]. split; [repeat split|].
      split; [exists (ticks w); simpl; split; [lia | reflexivity]|].
      split; [exact Hs | reflexivity].
    + assert (Hs1 : dirs n1 !! first path = Some c0) by exact Hs.
      unfold bind, loadDir. rewrite Hf1, Hs1. intros Hrec.
      pose proof (MkdirAll_rel E perm (rest path) c0 w1) as [Ht Hrel].
      rewrite Hrec in Ht, Hrel. simpl in Ht, Hrel.
      destruct (Hrel f n1 Hf1) as (n' & Hf' & Hd' & Hi' & Hm').
      exists n, n'. rewrite Hs. split; [reflexivity|]. split; [exact Hf'|].
      split; [eapply sameIdentity_trans; [|exact Hi']; repeat split|].
      split; [|split; [|contradiction]].
      * destruct Hm' as [->|Hm'].
        -- exists (ticks w). simpl. split; [lia | reflexivity].
        -- eapply readDuring_widen; [| |exact Hm']; simpl; lia.
      * eapply lookup_weaken; [|exact Hd']. exact Hs.
  - (* the child directory is created *)
    cbv zeta. set (c := fresh (dom (dnodes w))).
    set (nc := newDir (first path) (clock E (ticks w)) perm).
    set (n1 := setDirInfo (setModified (clock E (S (ticks w)))) (setChildDir (first path) c n)).
    set (w1 := mkWorld (<[f := n1]> (<[c := nc]> (dnodes w))) (fnodes w) (S (S (ticks w)))).
    assert (Hcnew : dnodes w !! c = None) by apply fresh_dir_new.
    assert (Hcf : f <> c) by (intros Heq; rewrite Heq, Hcnew in Hf; discriminate).
    assert (Hf1 : dnodes w1 !! f = Some n1) by apply lookup_insert_eq.
    assert (Hc1 : dnodes w1 !! c = Some nc).
    { simpl. rewrite lookup_insert_ne by exact Hcf. apply lookup_insert_eq. }
    assert (Hs1 : dirs n1 !! first path = Some c) by apply lookup_insert_eq.
    destruct (decide (single path)) as [Hsingle|Hmulti].
    + intros [= <-]. exists n, n1. rewrite Hs.
      split; [reflexivity|]. split; [exact Hf1|]. split; [repeat split|].
      split; [exists (S (ticks w)); simpl; split; [lia | reflexivity]|].
      exists c, nc. split; [exact Hs1|]. split; [exact Hcnew|]. split; [exact Hc1|].
      do 4 (split; [reflexivity|]).
      split; [exists (ticks w); simpl; split; [lia | reflexivity]|].
      intros _. split; reflexivity.
    + unfold bind, loadDir. rewrite Hf1, Hs1. intros Hrec.
      pose proof (MkdirAll_rel E perm (rest path) c w1) as [Ht Hrel].
      rewrite Hrec in Ht, Hrel. simpl in Ht, Hrel.
      destruct (Hrel f n1 Hf1) as (n' & Hf' & Hd' & Hi' & Hm').
      destruct (Hrel c nc Hc1) as (nc' & Hc' & _ & (Hi1 & Hi2 & Hi3 & Hi4) & Hmc).
      exists n, n'. rewrite Hs. split; [reflexivity|]. split; [exact Hf'|].
      split; [eapply sameIdentity_trans; [|exact Hi']; repeat split|].
      split.
      * destruct Hm' as [->|Hm'].
        -- exists (S (ticks w)). simpl. split; [lia | reflexivity].
        -- eapply readDuring_widen; [| |exact Hm']; simpl; lia.
      * exists c, nc'. split; [eapply lookup_weaken; [exact Hs1 | exact Hd']|].
        split; [exact Hcnew|]. split; [exact Hc'|].
        split; [exact Hi1|]. split; [exact Hi2|]. split; [exact Hi3|]. split; [exact Hi4|].
        split; [|contradiction].
        destruct Hmc as [->|Hmc].
        -- exists (ticks w). simpl. split; [lia | reflexivity].
        -- eapply readDuring_widen; [| |exact Hmc]; simpl; lia.
Qed.

(** *** Listing a directory *)

Lemma forEach_omap {A B} (g : A -> M B) (f : A -> option B) (l : list A) w :
  Forall (fun a => exists b, f a = Some b /\ g a w = (OK b, w)) l ->
  forEach g l w = (OK (omap f l), w) /\ length (omap f l) = length l.
Proof.
  induction 1 as [|a l (b & Hf & Hg) _ [IH IHlen]]; [split; reflexivity|].
  assert (Ho : omap f (a :: l) = b :: omap f l) by (simpl; rewrite Hf; reflexivity).
  rewrite Ho. split; [|simpl; rewrite IHlen; reflexivity].
  simpl forEach. rewrite bind_run, Hg, bind_run, IH. reflexivity.
Qed.

Lemma ltb_false_leb a b : String.ltb a b = false <-> String.leb b a = true.
Proof.
  unfold String.ltb, String.leb. rewrite (String.compare_antisym a b).
  destruct (String.compare b a); simpl; split; congruence.
Qed.

Lemma leb_trans a b c :
  String.leb a b = true -> String.leb b c = true -> String.leb a c = true.
Proof.
  intros H1 H2. apply Is_true_true. apply Is_true_true in H1, H2.
  exact (transitivity (R := String.le) H1 H2).
Qed.

Lemma lessName_strictWeak : strictWeak lessName.
Proof.
  unfold lessName, Name. split.
  - intros a b H. apply ltb_false_leb. unfold String.ltb in H. unfold String.leb.
    destruct (String.compare (name a) (name b)); congruence.
  - intros a b c H1 H2. apply ltb_false_leb. apply ltb_false_leb in H1, H2.
    eapply leb_trans; eassumption.
Qed.

Lemma sorted_by_name E l :
  EnvOK E -> StronglySorted nameLe (sortSlice E lessName l).
Proof.
  intros HE. pose proof (sort_sorted E HE lessName l lessName_strictWeak) as H.
  induction H as [|a l' Hl IH Ha]; constructor; [exact IH|].
  eapply Forall_impl; [exact Ha|]. intros b Hb. apply ltb_false_leb, Hb.
Qed.

Lemma NoDup_fmap_eq {A B} (f : A -> B) (l : list A) x y :
  NoDup (f <$> l) -> x ∈ l -> y ∈ l -> f x = f y -> x = y.
Proof.
  induction l as [|a l IH]; intros Hnd Hx Hy Hxy; [inversion Hx|].
  rewrite fmap_cons in Hnd. apply NoDup_cons in Hnd as [Ha Hnd].
  apply elem_of_cons in Hx as [->|Hx]; apply elem_of_cons in Hy as [->|Hy]; auto.
  - exfalso. apply Ha. rewrite Hxy. apply list_elem_of_fmap. eauto.
  - exfalso. apply Ha. rewrite <- Hxy. apply list_elem_of_fmap. eauto.
Qed.

(** Two listings of the same entries, both ascending by name, are the same
    list when no two entries share a name. *)
Lemma sorted_listing_unique (l1 l2 : list fileinfo) :
  StronglySorted nameLe l1 -> StronglySorted nameLe l2 ->
  Permutation l1 l2 -> NoDup (name <$> l1) -> l1 = l2.
Proof.
  intros H1 H2 Hp Hnd. apply (StronglySorted_unique_strong nameLe); try assumption.
  intros x1 x2 Hx1 Hx2 Hle1 Hle2.
  apply (NoDup_fmap_eq name l1); [exact Hnd | exact Hx1 | rewrite Hp; exact Hx2|].
  apply String.leb_antisym; assumption.
Qed.

(** What [ReadDir ""] returns when every child pointer is live: the sorted
    slice of the children's metadata, files first. *)
Lemma ReadDir_listing E d w n :
  EnvOK E -> dnodes w !! d = Some n -> childrenLive w n ->
  exists l,
    ReadDir E d "" w = (OK (sortSlice E lessName l), w) /\
    Permutation l (childEntries w n) /\
    length l = base.size (files n) + base.size (dirs n).
Proof.
  intros HE Hd [Hfl Hdl].
  set (ff := fun kp : string * ptr => file_info <$> fnodes w !! snd kp).
  set (fd := fun kp : string * ptr => dir_info <$> dnodes w !! snd kp).
  exists (omap ff (rangeOrder E (files n)) ++ omap fd (rangeOrder E (dirs n)))%list.
  assert (Hf : Forall (fun a => exists b, ff a = Some b /\
                 (let* h := openR (snd a) in statHandle h) w = (OK b, w))
                 (rangeOrder E (files n))).
  { apply Forall_forall. intros [k p] Hin.
    rewrite (range_perm E HE) in Hin. apply elem_of_map_to_list in Hin.
    destruct (Hfl k p Hin) as [fl Hp]. exists (file_info fl). unfold ff.
    change (snd (k, p)) with p. rewrite Hp.
    split; [reflexivity|]. unfold openR, bind, loadFile, ret. rewrite Hp.
    unfold statHandle, statFile, bind, loadFile. simpl r_file. rewrite Hp. reflexivity. }
  assert (Hdd : Forall (fun a => exists b, fd a = Some b /\ Stat (snd a) w = (OK b, w))
                 (rangeOrder E (dirs n))).
  { apply Forall_forall. intros [k p] Hin.
    rewrite (range_perm E HE) in Hin. apply elem_of_map_to_list in Hin.
    destruct (Hdl k p Hin) as [dn Hp]. exists (dir_info dn). unfold fd.
    change (snd (k, p)) with p. rewrite Hp.
    split; [reflexivity|]. unfold Stat, bind, loadDir. rewrite Hp. reflexivity. }
  destruct (forEach_omap (fun kf => let* h := openR (snd kf) in statHandle h) ff _ w Hf)
    as [Hrf Hlf].
  destruct (forEach_omap (fun kd => Stat (snd kd)) fd _ w Hdd) as [Hrd Hld].
  split; [|split].
  - rewrite ReadDir_eq. destruct (decide ("" = "")) as [_|Hne]; [|congruence].
    rewrite bind_run. unfold loadDir at 1. rewrite Hd.
    rewrite bind_run, Hrf, bind_run, Hrd. reflexivity.
  - unfold childEntries. fold ff. fold fd.
    apply Permutation_app; apply omap_Permutation, (range_perm E HE).
  - rewrite length_app, Hlf, Hld.
    rewrite !(Permutation_length (range_perm E HE _)), !length_map_to_list. reflexivity.
Qed.

(** Claim C5.  Under the contracts of [range] and [sort.Slice], [ReadDir ""]
    on a node whose child pointers are live returns, without changing the
    heap, a slice that is a reordering of the metadata of the child files and
    child directories (so one entry for each, no more), ascending by name.
    When no two children share a name the slice is the same for every order
    of iteration over the maps and every sorting procedure: it depends on
    the children alone, not on how they came to be in the maps. *)
Theorem ReadDir_lists_children E d w n :
  EnvOK E -> dnodes w !! d = Some n -> childrenLive w n ->
  exists es,
    ReadDir E d "" w = (OK es, w) /\
    Permutation es (childEntries w n) /\
    length es = base.size (files n) + base.size (dirs n) /\
    StronglySorted nameLe es /\
    (NoDup (name <$> childEntries w n) ->
     forall E', EnvOK E' -> ReadDir E' d "" w = (OK es, w)).
Proof.
  intros HE Hd Hlive.
  destruct (ReadDir_listing E d w n HE Hd Hlive) as (l & Hrun & Hperm & Hlen).
  exists (sortSlice E lessName l).
  assert (Hes : Permutation (sortSlice E lessName l) (childEntries w n)).
  { etrans; [apply (sort_perm E HE) | exact Hperm]. }
  split; [exact Hrun|]. split; [exact Hes|]. split.
  { rewrite (Permutation_length (sort_perm E HE lessName l)). exact Hlen. }
  split; [apply sorted_by_name, HE|].
  intros Hnd E' HE'.
  destruct (ReadDir_listing E' d w n HE' Hd Hlive) as (l' & Hrun' & Hperm' & _).
  rewrite Hrun'. f_equal. f_equal.
  apply sorted_listing_unique; try (apply sorted_by_name; assumption).
  - etrans; [apply (sort_perm E' HE')|]. etrans; [exact Hperm'|]. symmetry. exact Hes.
  - assert (Hes' : Permutation (sortSlice E' lessName l') (childEntries w n)).
    { etrans; [apply (sort_perm E' HE') | exact Hperm']. }
    rewrite Hes'. exact Hnd.
Qed.

(** *** The paths [""] and ["."] *)

Lemma current_is_segment s : s = "" \/ s = "." -> segment s.
Proof. intros [->| ->]; reflexivity. Qed.

Lemma MkdirAll_single_new E d s perm w n :
  segment s -> dnodes w !! d = Some n -> files n !! s = None ->
  exists w' n', MkdirAll E d s perm w = (OK tt, w') /\
                dnodes w' !! d = Some n' /\ is_Some (dirs n' !! s).
Proof.
  intros Hs Hd Hfile. rewrite MkdirAll_eq, bind_run, mkdirStep_run.
  rewrite (first_segment s Hs), Hd.
  destruct (decide (is_Some (files n !! s))) as [[x Hx]|_]; [congruence|].
  destruct (decide (single s)) as [_|Hns]; [|exfalso; apply Hns, single_segment, Hs].
  destruct (dirs n !! s) as [c|] eqn:Hc; cbv zeta; eexists _, _.
  - split; [reflexivity|]. split; [apply lookup_insert_eq|]. simpl. rewrite Hc. eauto.
  - split; [reflexivity|]. split; [apply lookup_insert_eq|]. simpl.
    rewrite lookup_insert_eq. eauto.
Qed.

Lemma WriteFile_single_new E d s data perm w n :
  segment s -> dnodes w !! d = Some n -> files n !! s = None ->
  exists w' n' f fl,
    WriteFile E d s data perm w = (OK tt, w') /\
    dnodes w' !! d = Some n' /\ files n' !! s = Some f /\
    fnodes w' !! f = Some fl /\ bytes (content fl) = data /\ name (file_info fl) = s.
Proof.
  intros Hs Hd Hfile. rewrite WriteFile_eq.
  destruct (decide (single s)) as [_|Hns]; [|exfalso; apply Hns, single_segment, Hs].
  rewrite (first_segment s Hs). unfold bind, loadDir. rewrite Hd, Hfile.
  unfold timeNow, allocFile, updDir. simpl. rewrite Hd.
  eexists _, _, _, _. split; [reflexivity|]. simpl.
  split; [apply lookup_insert_eq|]. simpl.
  split; [apply lookup_insert_eq|]. split; [apply lookup_insert_eq|]. split; reflexivity.
Qed.

(** Claim C8, as amended.  [Open] takes both [""] and ["."] for the node
    itself.  [getDir] and [ReadDir] take only [""] for it: ["."] is looked up
    among the child directories like any other name.  [MkdirAll] and
    [WriteFile] take neither for it: each is one segment, and on a node with
    no child file of that name [MkdirAll] leaves a child directory, and
    [WriteFile] a child file holding the data, under that very key. *)
Theorem current_node_paths E d w n :
  dnodes w !! d = Some n ->
  (Open d "" w = (OK (HDir d), w) /\ Open d "." w = (OK (HDir d), w)) /\
  (getDir d "" w = (OK d, w) /\
   (EnvOK E -> childrenLive w n ->
    exists es, ReadDir E d "" w = (OK es, w) /\ Permutation es (childEntries w n))) /\
  (dirs n !! "." = None ->
   getDir d "." w = (Err ErrNotExist, w) /\ ReadDir E d "." w = (Err ErrNotExist, w)) /\
  (forall s perm, s = "" \/ s = "." -> files n !! s = None ->
   exists w' n', MkdirAll E d s perm w = (OK tt, w') /\
                 dnodes w' !! d = Some n' /\ is_Some (dirs n' !! s)) /\
  (forall s data perm, s = "" \/ s = "." -> files n !! s = None ->
   exists w' n' f fl,
     WriteFile E d s data perm w = (OK tt, w') /\
     dnodes w' !! d = Some n' /\ files n' !! s = Some f /\
     fnodes w' !! f = Some fl /\ bytes (content fl) = data /\ name (file_info fl) = s).
Proof.
  intros Hd. split; [split; reflexivity|]. split; [split|].
  - rewrite getDir_eq. reflexivity.
  - intros HE Hlive. destruct (ReadDir_listing E d w n HE Hd Hlive) as (l & Hrun & Hperm & _).
    eexists. split; [exact Hrun|]. etrans; [apply (sort_perm E HE) | exact Hperm].
  - split; [|split].
    + intros Hdot. split.
      * rewrite getDir_segment by (reflexivity || discriminate).
        unfold bind, loadDir. rewrite Hd, Hdot. reflexivity.
      * rewrite ReadDir_eq. destruct (decide ("." = "")) as [|_]; [discriminate|].
        change (first ".") with ".". unfold bind, loadDir. rewrite Hd, Hdot. reflexivity.
    + intros s perm Hs Hfile. apply (MkdirAll_single_new E d s perm w n); auto using current_is_segment.
    + intros s data perm Hs Hfile. apply (WriteFile_single_new E d s data perm w n); auto using current_is_segment.
Qed.

(** *** The concrete environment meets the contracts *)

Lemma insertBy_perm {A} (less : A -> A -> bool) x l : Permutation (insertBy less x l) (x :: l).
Proof.
  induction l as [|y l IH]; simpl; [reflexivity|].
  destruct (less y x); [|reflexivity].
  rewrite IH. apply perm_swap.
Qed.

Lemma isort_perm {A} (less : A -> A -> bool) l : Permutation (isort less l) l.
Proof.
  induction l as [|x l IH]; simpl; [reflexivity|].
  rewrite insertBy_perm, IH. reflexivity.
Qed.

Lemma insertBy_sorted {A} (less : A -> A -> bool) x l :
  strictWeak less ->
  StronglySorted (fun a b => less b a = false) l ->
  StronglySorted (fun a b => less b a = false) (insertBy less x l).
Proof.
  intros [Hasym Htrans]. induction 1 as [|y l Hl IH Hy]; simpl.
  - repeat constructor.
  - destruct (less y x) eqn:Hyx.
    + constructor; [exact IH|]. rewrite insertBy_perm.
      constructor; [apply Hasym, Hyx | exact Hy].
    + constructor; [constructor; assumption|].
      constructor; [exact Hyx|].
      eapply Forall_impl; [exact Hy|]. intros z Hz. eapply Htrans; eassumption.
Qed.

Lemma isort_sorted {A} (less : A -> A -> bool) l :
  strictWeak less -> StronglySorted (fun a b => less b a = false) (isort less l).
Proof.
  intros Hsw. induction l as [|x l IH]; simpl; [constructor|].
  apply insertBy_sorted; assumption.
Qed.

Lemma stdEnv_ok : EnvOK stdEnv.
Proof.
  constructor; simpl.
  - reflexivity.
  - intros less l. apply isort_perm.
  - intros less l Hsw. apply isort_sorted, Hsw.
Qed.

Lemma revEnv_ok : EnvOK revEnv.
Proof.
  constructor; simpl.
  - intros m. symmetry. apply Permutation_rev.
  - intros less l. apply isort_perm.
  - intros less l Hsw. apply isort_sorted, Hsw.
Qed.

(* ===================================================================== *)
(** ** Further properties of the writers and the resolvers *)
(* ===================================================================== *)

(** *** Splitting a path into its first segment and the rest *)

Lemma Split_single path : single path -> Split path separator = [first path].
Proof.
  unfold single, first. destruct (Split path separator) as [|x [|y l]]; simpl; intros H;
    try discriminate. reflexivity.
Qed.

Lemma Split_multi path :
  ~ single path -> Split path separator = first path :: Split (rest path) separator.
Proof.
  intros Hmulti. unfold first, rest. pose proof (Split_segments path) as Hseg.
  unfold single in Hmulti. destruct (Split_cons path separator) as (x & l & Hsp).
  rewrite Hsp in *.
  simpl. f_equal. symmetry. apply Split_Join.
  - destruct l; [simpl in Hmulti; lia | discriminate].
  - inversion Hseg; assumption.
Qed.

(** *** What [MkdirAll] keeps *)

Lemma keepsNodes_refl w : keepsNodes w w.
Proof. split; [reflexivity|]. split; [lia|]. intros p n Hp. exists n. auto. Qed.

Lemma keepsNodes_trans w1 w2 w3 : keepsNodes w1 w2 -> keepsNodes w2 w3 -> keepsNodes w1 w3.
Proof.
  intros (Hf1 & Ht1 & H1) (Hf2 & Ht2 & H2). split; [congruence|]. split; [lia|].
  intros p n Hp. destruct (H1 p n Hp) as (n2 & Hp2 & Hd2 & Hfl2).
  destruct (H2 p n2 Hp2) as (n3 & Hp3 & Hd3 & Hfl3).
  exists n3. split; [exact Hp3|]. split; [etrans; eassumption | congruence].
Qed.

Lemma mkdirStep_keeps E f s perm w : keepsNodes w (snd (mkdirStep E f s perm w)).
Proof.
  rewrite mkdirStep_run. destruct (dnodes w !! f) as [n|] eqn:Hf; [|apply keepsNodes_refl].
  destruct (decide _) as [|Hfile]; [apply keepsNodes_refl|].
  destruct (dirs n !! s) as [c|] eqn:Hs; cbv zeta; simpl.
  - split; [reflexivity|]. split; [simpl; lia|]. intros p m Hp. simpl.
    destruct (decide (f = p)) as [->|Hne].
    + rewrite lookup_insert_eq. rewrite Hf in Hp. injection Hp as <-.
      eexists. split; [reflexivity|]. split; reflexivity.
    + rewrite lookup_insert_ne by exact Hne. exists m. auto.
  - split; [reflexivity|]. split; [simpl; lia|]. intros p m Hp. simpl.
    destruct (decide (f = p)) as [->|Hne].
    + rewrite lookup_insert_eq. rewrite Hf in Hp. injection Hp as <-.
      eexists. split; [reflexivity|]. split; [|reflexivity].
      simpl. apply insert_subseteq, Hs.
    + rewrite lookup_insert_ne by exact Hne.
      assert (Hc : fresh (dom (dnodes w)) <> p).
      { intros Heq. pose proof (fresh_dir_new w) as Hfr. rewrite Heq, Hp in Hfr. discriminate. }
      rewrite lookup_insert_ne by exact Hc. exists m. auto.
Qed.

Lemma MkdirAll_keeps E perm path : forall f w, keepsNodes w (snd (MkdirAll E f path perm w)).
Proof.
  induction path as [path IH] using path_ind. intros f w.
  rewrite MkdirAll_eq, bind_run.
  pose proof (mkdirStep_keeps E f (first path) perm w) as Hstep.
  destruct (mkdirStep E f (first path) perm w) as [[[]|e|] w1]; simpl in Hstep; [|exact Hstep..].
  destruct (decide (single path)) as [|Hmulti]; [exact Hstep|].
  unfold bind, loadDir. destruct (dnodes w1 !! f) as [n|]; [|exact Hstep].
  destruct (dirs n !! first path) as [c|]; [|exact Hstep].
  eapply keepsNodes_trans; [exact Hstep|].
  apply IH, not_single_rest_shorter, Hmulti.
Qed.

(** After a successful [MkdirAll] the path is made. *)
Lemma MkdirAll_made E perm path : forall f w w',
  MkdirAll E f path perm w = (OK tt, w') -> made w' f (Split path separator).
Proof.
  induction path as [path IH] using path_ind. intros f w w'.
  rewrite MkdirAll_eq, bind_run, mkdirStep_run.
  destruct (dnodes w !! f) as [n|] eqn:Hf; [|discriminate].
  destruct (decide _) as [|Hfile]; [discriminate|].
  assert (Hnone : files n !! first path = None).
  { destruct (files n !! first path) eqn:Heq; [exfalso; apply Hfile; eauto | reflexivity]. }
  assert (Hstep : forall n1 c w1,
            dnodes w1 !! f = Some n1 -> files n1 = files n -> dirs n1 !! first path = Some c ->
            (if decide (single path) then ret tt
             else let* n2 := loadDir f in
                  match dirs n2 !! first path with
                  | Some c => MkdirAll E c (rest path) perm
                  | None => panic
                  end) w1 = (OK tt, w') ->
            made w' f (Split path separator)).
  { intros n1 c w1 Hf1 Hfl1 Hc1. destruct (decide (single path)) as [Hsingle|Hmulti].
    - intros [= <-]. rewrite (Split_single path Hsingle). simpl.
      exists n1, c. rewrite Hfl1. auto.
    - unfold bind, loadDir. rewrite Hf1, Hc1. intros Hrec.
      rewrite (Split_multi path Hmulti). simpl.
      pose proof (MkdirAll_keeps E perm (rest path) c w1) as Hk. rewrite Hrec in Hk. simpl in Hk.
      destruct Hk as (_ & _ & Hnodes). destruct (Hnodes f n1 Hf1) as (n' & Hf' & Hsub & Hfl').
      exists n', c. split; [exact Hf'|]. split; [congruence|].
      split; [eapply lookup_weaken; eassumption|].
      eapply IH; [apply not_single_rest_shorter, Hmulti | exact Hrec]. }
  destruct (dirs n !! first path) as [c|] eqn:Hs; cbv zeta.
  - eapply Hstep; [apply lookup_insert_eq | reflexivity | exact Hs].
  - eapply Hstep; [apply lookup_insert_eq | reflexivity | apply lookup_insert_eq].
Qed.

Lemma made_last w pre s : forall d,
  made w d (pre ++ [s]) ->
  exists D n c, walk d pre w = (OK D, w) /\ dnodes w !! D = Some n /\
                files n !! s = None /\ dirs n !! s = Some c.
Proof.
  induction pre as [|x pre IH]; intros d; simpl.
  - intros (n & c & Hd & Hfile & Hdir & _). exists d, n, c. auto.
  - intros (n & c & Hd & _ & Hdir & Hrest).
    unfold bind, loadDir. rewrite Hd, Hdir. apply IH, Hrest.
Qed.

(** Extra X1.  After [MkdirAll] has succeeded on a path with no empty
    segment, the path resolves in the heap it leaves: [getDir] returns a
    directory for it, [getFile] finds no file under it, and [Open] on it
    (unless the path is ["."], which [Open] takes for the node itself)
    returns that directory. *)
Theorem MkdirAll_then_resolves E d path perm w w' :
  MkdirAll E d path perm w = (OK tt, w') ->
  Forall (fun s => s <> "") (Split path separator) ->
  exists D,
    getDir d path w' = (OK D, w') /\
    getFile d path w' = (Err ErrNotExist, w') /\
    (path <> "." -> Open d path w' = (OK (HDir D), w')).
Proof.
  intros Hmk Hne. pose proof (MkdirAll_made E perm path d w w' Hmk) as Hmade.
  destruct (path_parts path) as (pre & s & Hsplit & Hname & Hseg).
  rewrite Hsplit in Hmade, Hne.
  destruct (made_last w' pre s d Hmade) as (D0 & n0 & c & Hwalk & HD0 & Hfile & Hdir).
  apply Forall_app in Hne as [Hpre Hs]. inversion Hs as [|? ? Hsne _]; subst.
  assert (Hsseg : segment s) by (apply Forall_app in Hseg as [_ H]; inversion H; assumption).
  assert (HgD : getDir d (Join (pre ++ [s]) separator) w' = (OK c, w')).
  { rewrite getDir_descend by (exact Hseg || discriminate).
    rewrite bind_run, Hwalk. simpl Join. rewrite getDir_segment by assumption.
    unfold bind, loadDir. rewrite HD0, Hdir. reflexivity. }
  assert (HgF : getFile d (Join (pre ++ [s]) separator) w' = (Err ErrNotExist, w')).
  { rewrite getFile_descend by (exact Hseg || exact Hpre || discriminate).
    rewrite bind_run, Hwalk. simpl Join. rewrite getFile_eq.
    destruct (decide _) as [_|Hns]; [|exfalso; apply Hns, single_segment, Hsseg].
    unfold bind, loadDir. rewrite HD0, Hfile. reflexivity. }
  exists c. split; [exact HgD|]. split; [exact HgF|]. intros Hdot.
  assert (Hemp : Join (pre ++ [s]) separator <> "").
  { intros Heq. rewrite Heq in Hsplit. simpl in Hsplit.
    destruct pre as [|? [|]]; simpl in Hsplit; congruence. }
  rewrite (Open_eq d _ w' Hemp Hdot), HgF, HgD. reflexivity.
Qed.

(** *** Heaps that differ in modification times only *)


Lemma onlyTimes_trans w1 w2 w3 : onlyTimes w1 w2 -> onlyTimes w2 w3 -> onlyTimes w1 w3.
Proof.
  intros [Hf1 H1] [Hf2 H2]. split; [congruence|]. intros p.
  specialize (H1 p). specialize (H2 p).
  destruct (dnodes w1 !! p), (dnodes w2 !! p), (dnodes w3 !! p); try tauto.
  destruct H1 as (Hd1 & Hfl1 & Hi1), H2 as (Hd2 & Hfl2 & Hi2).
  split; [congruence|]. split; [congruence|]. eapply sameIdentity_trans; eassumption.
Qed.

Lemma made_onlyTimes w w' parts : forall d,
  onlyTimes w w' -> made w d parts -> made w' d parts.
Proof.
  induction parts as [|s parts IH]; intros d Hk; simpl; [auto|].
  intros (n & c & Hd & Hfile & Hdir & Hrest).
  pose proof (proj2 Hk d) as Hp. rewrite Hd in Hp.
  destruct (dnodes w' !! d) as [n'|]; [|contradiction].
  destruct Hp as (Hdirs & Hfiles & _).
  exists n', c. split; [reflexivity|]. split; [congruence|]. split; [congruence|].
  apply IH; assumption.
Qed.

(** The step of [MkdirAll] at a node that has the child directory already. *)
Lemma mkdirStep_there E f s perm w n c :
  dnodes w !! f = Some n -> files n !! s = None -> dirs n !! s = Some c ->
  exists w1, mkdirStep E f s perm w = (OK tt, w1) /\ onlyTimes w w1.
Proof.
  intros Hf Hfile Hdir. rewrite mkdirStep_run, Hf.
  destruct (decide _) as [Hsome|_]; [rewrite Hfile in Hsome; destruct Hsome; discriminate|].
  rewrite Hdir. eexists. split; [reflexivity|].
  split; [reflexivity|]. intros p. simpl. destruct (decide (f = p)) as [->|Hne].
  - rewrite lookup_insert_eq, Hf. repeat split; reflexivity.
  - rewrite lookup_insert_ne by exact Hne. destruct (dnodes w !! p); [|exact I].
    repeat split; reflexivity.
Qed.

(** Where the path is made, [MkdirAll] succeeds and creates nothing. *)
Lemma made_MkdirAll E perm path : forall f w,
  made w f (Split path separator) ->
  exists w', MkdirAll E f path perm w = (OK tt, w') /\ onlyTimes w w'.
Proof.
  induction path as [path IH] using path_ind. intros f w Hmade.
  rewrite MkdirAll_eq, bind_run.
  destruct (decide (single path)) as [Hsingle|Hmulti].
  - rewrite (Split_single path Hsingle) in Hmade. simpl in Hmade.
    destruct Hmade as (n & c & Hf & Hfile & Hdir & _).
    destruct (mkdirStep_there E f (first path) perm w n c Hf Hfile Hdir) as (w1 & -> & Hot).
    exists w1. split; [reflexivity | exact Hot].
  - rewrite (Split_multi path Hmulti) in Hmade. simpl in Hmade.
    destruct Hmade as (n & c & Hf & Hfile & Hdir & Hrest).
    destruct (mkdirStep_there E f (first path) perm w n c Hf Hfile Hdir) as (w1 & -> & Hot).
    pose proof (proj2 Hot f) as Hp. rewrite Hf in Hp.
    unfold bind, loadDir. destruct (dnodes w1 !! f) as [n1|]; [|contradiction].
    destruct Hp as (Hdirs & _ & _). rewrite Hdirs, Hdir.
    destruct (IH (rest path) (not_single_rest_shorter path Hmulti) c w1) as (w' & Hrun & Hot').
    { eapply made_onlyTimes; eassumption. }
    exists w'. split; [exact Hrun|]. eapply onlyTimes_trans; eassumption.
Qed.

(** [MkdirAll] below a directory with no children succeeds. *)
Lemma MkdirAll_on_empty E perm path : forall c w nc,
  dnodes w !! c = Some nc -> files nc = ∅ -> dirs nc = ∅ ->
  exists w', MkdirAll E c path perm w = (OK tt, w').
Proof.
  induction path as [path IH] using path_ind. intros c w nc Hc Hfiles Hdirs.
  rewrite MkdirAll_eq, bind_run, mkdirStep_run, Hc.
  destruct (decide _) as [Hsome|_].
  { rewrite Hfiles, lookup_empty in Hsome. destruct Hsome; discriminate. }
  rewrite Hdirs, lookup_empty. cbv zeta.
  destruct (decide (single path)) as [|Hmulti]; [eexists; reflexivity|].
  unfold bind, loadDir. simpl. rewrite lookup_insert_eq. simpl. rewrite lookup_insert_eq.
  eapply (IH (rest path) (not_single_rest_shorter path Hmulti) _ _
             (newDir (first path) (clock E (ticks w)) perm)); [|reflexivity..].
  simpl. assert (Hne : c <> fresh (dom (dnodes w))).
  { intros Heq. pose proof (fresh_dir_new w) as Hfr. rewrite <- Heq, Hc in Hfr. discriminate. }
  rewrite lookup_insert_ne by exact Hne. apply lookup_insert_eq.
Qed.


(** Extra X3.  A second [MkdirAll] on a path on which [MkdirAll] has
    succeeded succeeds as well, whatever mode it is given, and creates
    nothing: the file store, the set of directory nodes, every child map and
    the name, size, flag and mode of every directory are as the first call
    left them (the mode of the second call is not applied).  Only
    modification times and the count of clock readings change. *)
Theorem MkdirAll_again E d path perm perm' w w1 :
  MkdirAll E d path perm w = (OK tt, w1) ->
  exists w2, MkdirAll E d path perm' w1 = (OK tt, w2) /\ onlyTimes w1 w2.
Proof.
  intros Hmk. apply made_MkdirAll. eapply MkdirAll_made, Hmk.
Qed.

(** Extra X4.  Whatever [MkdirAll] returns, it leaves the file store as it
    was, never takes the clock back, and every directory node that was there
    is still there with the same child files, the same name, size, flag and
    mode, and every child directory it had under the same key. *)
Theorem MkdirAll_removes_nothing E f path perm w :
  keepsNodes w (snd (MkdirAll E f path perm w)) /\
  forall p n n', dnodes w !! p = Some n ->
                 dnodes (snd (MkdirAll E f path perm w)) !! p = Some n' ->
                 sameIdentity (dir_info n) (dir_info n').
Proof.
  split; [apply MkdirAll_keeps|]. intros p n n' Hp Hp'.
  destruct (MkdirAll_rel E perm path f w) as [_ Hrel].
  destruct (Hrel p n Hp) as (m & Hm & _ & Hid & _). congruence.
Qed.

Lemma mkdirStep_count E f s perm w :
  base.size (dnodes (snd (mkdirStep E f s perm w))) <= S (base.size (dnodes w)).
Proof.
  rewrite mkdirStep_run. destruct (dnodes w !! f) as [n|] eqn:Hf; [|simpl; lia].
  destruct (decide _); [simpl; lia|].
  destruct (dirs n !! s); cbv zeta; simpl.
  - rewrite map_size_insert, Hf. simpl. lia.
  - assert (Hne : fresh (dom (dnodes w)) <> f).
    { intros Heq. pose proof (fresh_dir_new w) as Hfr. rewrite Heq, Hf in Hfr. discriminate. }
    rewrite map_size_insert, lookup_insert_ne, Hf by exact Hne. simpl.
    rewrite map_size_insert, fresh_dir_new. simpl. lia.
Qed.

(** Extra X5.  [MkdirAll] makes at most one directory node for each segment of
    the path, whatever it returns. *)
Theorem MkdirAll_node_count E perm path : forall f w,
  base.size (dnodes (snd (MkdirAll E f path perm w)))
  <= base.size (dnodes w) + length (Split path separator).
Proof.
  induction path as [path IH] using path_ind. intros f w.
  rewrite MkdirAll_eq, bind_run.
  pose proof (mkdirStep_count E f (first path) perm w) as Hstep.
  assert (Hlen : 1 <= length (Split path separator)).
  { destruct (Split_cons path separator) as (h & t & ->). simpl. lia. }
  destruct (mkdirStep E f (first path) perm w) as [[[]|e|] w1]; simpl in Hstep;
    [|simpl; lia..].
  destruct (decide (single path)) as [|Hmulti]; [simpl; lia|].
  unfold bind, loadDir. destruct (dnodes w1 !! f) as [n|]; [|simpl; lia].
  destruct (dirs n !! first path) as [c|]; [|simpl; lia].
  specialize (IH (rest path) (not_single_rest_shorter path Hmulti) c w1).
  rewrite (Split_multi path Hmulti). simpl. lia.
Qed.

Lemma mkdirOutcome_onlyTimes w w' parts : forall d,
  onlyTimes w w' -> mkdirOutcome w' d parts = mkdirOutcome w d parts.
Proof.
  induction parts as [|s parts IH]; intros d Hot; [reflexivity|]. simpl.
  pose proof (proj2 Hot d) as Hp.
  destruct (dnodes w !! d) as [n|], (dnodes w' !! d) as [n'|]; try contradiction;
    [|reflexivity].
  destruct Hp as (-> & -> & _). destruct (decide _); [reflexivity|].
  destruct parts as [|x parts]; [reflexivity|].
  destruct (dirs n !! s) as [c|]; [|reflexivity]. apply IH, Hot.
Qed.

(** Extra X6.  What [MkdirAll] returns is settled by the heap before the
    call, at whatever depth: going down the child directories that are
    already there, it returns [fs.ErrExist] at the first segment that is the
    key of a child file of the directory reached, and nil once it is past
    the last segment or at a segment that has no directory yet (from there
    on it makes the directories, and nothing can be in their way). *)
Theorem MkdirAll_outcome E perm path : forall d w,
  fst (MkdirAll E d path perm w) = mkdirOutcome w d (Split path separator).
Proof.
  induction path as [path IH] using path_ind. intros d w.
  rewrite MkdirAll_eq, bind_run, mkdirStep_run.
  destruct (decide (single path)) as [Hsingle|Hmulti].
  - rewrite (Split_single path Hsingle). simpl.
    destruct (dnodes w !! d) as [n|]; [|reflexivity].
    destruct (decide _); [reflexivity|].
    destruct (dirs n !! first path); reflexivity.
  - rewrite (Split_multi path Hmulti). simpl.
    destruct (Split_cons (rest path) separator) as (h & t & Hsp).
    destruct (dnodes w !! d) as [n|] eqn:Hd; [|reflexivity].
    destruct (decide _) as [|Hfile]; [reflexivity|].
    assert (Hnone : files n !! first path = None).
    { destruct (files n !! first path) eqn:Heq; [exfalso; apply Hfile; eauto | reflexivity]. }
    destruct (dirs n !! first path) as [c|] eqn:Hs; cbv zeta.
    + destruct (mkdirStep_there E d (first path) perm w n c Hd Hnone Hs) as (w1 & Hrun & Hot).
      rewrite mkdirStep_run, Hd in Hrun.
      destruct (decide _) as [|_] in Hrun; [discriminate|]. rewrite Hs in Hrun.
      injection Hrun as Hw1. rewrite Hw1.
      pose proof (proj2 Hot d) as Hp. rewrite Hd in Hp.
      unfold bind, loadDir. destruct (dnodes w1 !! d) as [n1|]; [|contradiction].
      destruct Hp as (Hdirs & _ & _). rewrite Hdirs, Hs.
      rewrite (IH (rest path) (not_single_rest_shorter path Hmulti) c w1).
      rewrite (mkdirOutcome_onlyTimes w w1 _ c Hot), Hsp. reflexivity.
    + rewrite Hsp. unfold bind, loadDir. simpl. rewrite lookup_insert_eq. simpl.
      rewrite lookup_insert_eq.
      match goal with
      | |- fst (MkdirAll _ ?c _ _ ?W) = _ =>
          destruct (MkdirAll_on_empty E perm (rest path) c W
                      (newDir (first path) (clock E (ticks w)) perm)) as (w' & ->);
            [| | |reflexivity]
      end.
      * simpl. assert (Hne : d <> fresh (dom (dnodes w))).
        { intros Heq. pose proof (fresh_dir_new w) as Hfr. rewrite <- Heq, Hd in Hfr.
          discriminate. }
        rewrite lookup_insert_ne by exact Hne. apply lookup_insert_eq.
      * reflexivity.
      * reflexivity.
Qed.

(** *** What [WriteFile] does and leaves *)

Lemma dirsUntouched_same leaf w w' : dnodes w' = dnodes w -> dirsUntouched leaf w w'.
Proof.
  intros Heq p. rewrite Heq. destruct (dnodes w !! p); [|exact I]. auto.
Qed.

Lemma WriteFile_leaves_dirs E d path data perm w :
  dirsUntouched (List.last (Split path separator) "") w
                (snd (WriteFile E d path data perm w)) /\
  exists c, forall p, p <> c ->
    fnodes (snd (WriteFile E d path data perm w)) !! p = fnodes w !! p.
Proof.
  destruct (path_parts path) as (pre & s & Hsplit & Hname & Hseg).
  rewrite Hsplit, last_last. rewrite Hname.
  rewrite WriteFile_descend by (exact Hseg || discriminate).
  rewrite bind_run. destruct (walk_run d pre w) as (r & -> & _).
  assert (Hsame : dirsUntouched s w w /\ exists c : ptr, forall p, p <> c -> fnodes w !! p = fnodes w !! p).
  { split; [apply dirsUntouched_same; reflexivity | exists 1%positive; reflexivity]. }
  destruct r as [D|e|]; [|exact Hsame..]. simpl Join.
  assert (Hs : segment s) by (apply Forall_app in Hseg as [_ H]; inversion H; assumption).
  rewrite WriteFile_eq.
  destruct (decide (single s)) as [_|Hns]; [|exfalso; apply Hns, single_segment, Hs].
  rewrite (first_segment s Hs). unfold bind, loadDir.
  destruct (dnodes w !! D) as [n|] eqn:HD; [|exact Hsame].
  destruct (files n !! s) as [ex|] eqn:Hex.
  - unfold overwrite. destruct (validMode E perm); [|exact Hsame].
    unfold bind, timeNow, updFile. simpl.
    destruct (fnodes w !! ex) as [fl|] eqn:Hfl; simpl.
    + split; [apply dirsUntouched_same; reflexivity|]. exists ex. intros p Hp.
      apply lookup_insert_ne. congruence.
    + split; [apply dirsUntouched_same; reflexivity|]. exists ex. reflexivity.
  - unfold timeNow, allocFile, updDir. simpl. rewrite HD. simpl. split.
    + intros p. simpl. destruct (decide (D = p)) as [->|Hne].
      * rewrite lookup_insert_eq, HD. simpl. split; [reflexivity|]. split; [reflexivity|].
        right. eexists. split; [exact Hex | reflexivity].
      * rewrite lookup_insert_ne by exact Hne. destruct (dnodes w !! p); [|exact I]. auto.
    + exists (fresh (dom (fnodes w))). intros p Hp. apply lookup_insert_ne. congruence.
Qed.


(** Extra X8.  [WriteFile] makes no directory at any depth: when a segment
    other than the last is not the key of a child directory of the directory
    reached by the segments before it, the call returns [fs.ErrNotExist] and
    the heap is the one it started from. *)
Theorem WriteFile_missing_below E d path data perm w pre s post D n :
  Split path separator = (pre ++ s :: post)%list -> post <> [] ->
  walk d pre w = (OK D, w) -> dnodes w !! D = Some n -> dirs n !! s = None ->
  WriteFile E d path data perm w = (Err ErrNotExist, w).
Proof.
  intros Hsplit Hpost Hwalk HD Hdir.
  assert (Hseg : Forall segment (pre ++ s :: post)).
  { rewrite <- Hsplit. apply Split_segments. }
  rewrite <- (Join_Split path separator), Hsplit.
  rewrite WriteFile_descend by (exact Hseg || discriminate).
  rewrite bind_run, Hwalk.
  apply Forall_app in Hseg as [_ Hseg'].
  rewrite WriteFile_eq.
  destruct (decide _) as [Hsingle|_].
  { apply (single_Join _ _ Hseg') in Hsingle. contradiction. }
  rewrite (first_Join _ _ Hseg'). unfold bind, loadDir. rewrite HD, Hdir. reflexivity.
Qed.

(** The heap after [WriteFile] has made a new file. *)
Lemma WriteFile_new_run E d path data perm w pre s D n :
  Split path separator = (pre ++ [s])%list ->
  walk d pre w = (OK D, w) -> dnodes w !! D = Some n -> files n !! s = None ->
  WriteFile E d path data perm w =
  (OK tt, mkWorld (<[D := setChildFile s (fresh (dom (fnodes w))) n]> (dnodes w))
                  (<[fresh (dom (fnodes w)) :=
                       newFile s (makeBuffer E data) (clock E (ticks w)) perm]> (fnodes w))
                  (S (ticks w))).
Proof.
  intros Hsplit Hwalk HD Hfile.
  assert (Hseg : Forall segment (pre ++ [s])).
  { rewrite <- Hsplit. apply Split_segments. }
  rewrite <- (Join_Split path separator), Hsplit.
  rewrite WriteFile_descend by (exact Hseg || discriminate).
  rewrite bind_run, Hwalk. simpl Join.
  assert (Hs : segment s) by (apply Forall_app in Hseg as [_ H]; inversion H; assumption).
  rewrite WriteFile_eq.
  destruct (decide (single s)) as [_|Hns]; [|exfalso; apply Hns, single_segment, Hs].
  rewrite (first_segment s Hs). unfold bind, loadDir. rewrite HD, Hfile.
  unfold timeNow, allocFile, updDir. simpl. rewrite HD. reflexivity.
Qed.

Lemma fresh_file_new w : fnodes w !! fresh (dom (fnodes w)) = None.
Proof. apply not_elem_of_dom, is_fresh. Qed.

(** Extra X9.  When the segments before the last lead to a live directory
    that has no child file under the last segment, [WriteFile] succeeds at
    whatever depth; it reads the clock once and makes one file node, at a
    pointer that was free, with the last segment as its name, the length of
    the data as its size, the clock reading as its modification time, the
    directory flag off, the mode given, the data as its content and the
    larger of [bufferSize] and the length of the data as its capacity.  The
    directory gets the node under the last segment and is otherwise as it
    was; no other node changes. *)
Theorem WriteFile_creates_file E d path data perm w pre s D n :
  Split path separator = (pre ++ [s])%list ->
  walk d pre w = (OK D, w) -> dnodes w !! D = Some n -> files n !! s = None ->
  exists c w',
    WriteFile E d path data perm w = (OK tt, w') /\
    fnodes w !! c = None /\
    fnodes w' =
      <[c := mkFile (mkInfo s (Z.of_nat (length data)) (clock E (ticks w)) false perm)
                    (mkBuffer data (Nat.max (bufferSize E) (length data)))]> (fnodes w) /\
    dnodes w' = <[D := mkDir (dir_info n) (dirs n) (<[s := c]> (files n))]> (dnodes w) /\
    ticks w' = S (ticks w).
Proof.
  intros Hsplit Hwalk HD Hfile.
  exists (fresh (dom (fnodes w))). eexists.
  split; [eapply WriteFile_new_run; eassumption|].
  split; [apply fresh_file_new|]. simpl. repeat split.
Qed.

(** *** Paths that resolve keep resolving *)

Lemma getDir_grows w w' q : forall d D,
  grows w w' -> getDir d q w = (OK D, w) -> getDir d q w' = (OK D, w').
Proof.
  induction q as [q IH] using path_ind. intros d D Hg.
  rewrite !getDir_eq. destruct (decide (q = "")) as [|Hne].
  - intros [= ->]. reflexivity.
  - unfold bind, loadDir. destruct (dnodes w !! d) as [n|] eqn:Hd; [|discriminate].
    destruct (Hg d n Hd) as (n' & -> & Hsub & _).
    destruct (dirs n !! first q) as [c|] eqn:Hc; [|discriminate].
    rewrite (lookup_weaken _ _ _ _ Hc Hsub). apply IH; [apply rest_shorter, Hne | exact Hg].
Qed.

Lemma getFile_grows w w' q : forall d f,
  grows w w' -> getFile d q w = (OK f, w) -> getFile d q w' = (OK f, w').
Proof.
  induction q as [q IH] using path_ind. intros d f Hg.
  rewrite !getFile_eq. destruct (decide (single q)) as [|Hmulti].
  - unfold bind, loadDir. destruct (dnodes w !! d) as [n|] eqn:Hd; [|discriminate].
    destruct (Hg d n Hd) as (n' & -> & _ & Hsub).
    destruct (files n !! q) as [c|] eqn:Hc; [|discriminate].
    rewrite (lookup_weaken _ _ _ _ Hc Hsub). intros [= ->]. reflexivity.
  - rewrite !bind_run. destruct (getDir_run d (first q) w) as (r & Hrun & _). rewrite Hrun.
    destruct r as [sub|e|]; [|discriminate..].
    rewrite (getDir_grows w w' (first q) d sub Hg Hrun).
    apply IH; [apply not_single_rest_shorter, Hmulti | exact Hg].
Qed.

Lemma grows_refl w : grows w w.
Proof. intros p n Hp. exists n. auto. Qed.

Lemma after_grows E c d w : grows w (after E c d w).
Proof.
  destruct c as [path perm|path data perm|name|name]; simpl.
  - destruct (MkdirAll_keeps E perm path d w) as (_ & _ & H). intros p n Hp.
    destruct (H p n Hp) as (n' & Hp' & Hsub & Hfl). exists n'. rewrite Hfl. auto.
  - destruct (WriteFile_leaves_dirs E d path data perm w) as [H _]. intros p n Hp.
    specialize (H p). rewrite Hp in H.
    destruct (dnodes _ !! p) as [n'|]; [|contradiction].
    destruct H as (_ & Hdirs & Hfiles). exists n'. split; [reflexivity|].
    rewrite Hdirs. split; [reflexivity|].
    destruct Hfiles as [->|(c & Hnone & ->)]; [reflexivity|].
    apply insert_subseteq, Hnone.
  - rewrite Open_reads. apply grows_refl.
  - rewrite ReadDir_reads. apply grows_refl.
Qed.

(** Extra X10.  No call of the interface takes a path away: a path that
    [getDir] resolves to a directory node, or [getFile] to a file node,
    resolves to the same node after a call of [MkdirAll], [WriteFile], [Open]
    or [ReadDir] on any directory with any arguments, whatever that call
    returned. *)
Theorem calls_keep_paths E c d w d0 q :
  (forall D, getDir d0 q w = (OK D, w) ->
             getDir d0 q (after E c d w) = (OK D, after E c d w)) /\
  (forall f, getFile d0 q w = (OK f, w) ->
             getFile d0 q (after E c d w) = (OK f, after E c d w)).
Proof.
  split; intros x Hx.
  - eapply getDir_grows; [apply after_grows | exact Hx].
  - eapply getFile_grows; [apply after_grows | exact Hx].
Qed.

(** *** Listing through a path *)

Lemma ReadDir_getDir E name : forall d w,
  ReadDir E d name w = (let* D := getDir d name in ReadDir E D "") w.
Proof.
  induction name as [name IH] using path_ind. intros d w.
  rewrite getDir_eq. destruct (decide (name = "")) as [->|Hne]; [reflexivity|].
  rewrite ReadDir_eq. destruct (decide (name = "")) as [|_]; [contradiction|].
  unfold bind, loadDir. destruct (dnodes w !! d) as [n|]; [|reflexivity].
  destruct (dirs n !! first name) as [sub|]; [|reflexivity].
  rewrite (IH (rest name) (rest_shorter name Hne)). reflexivity.
Qed.

Lemma forEach_no_error {A B} (g : A -> M B) (l : list A) :
  (forall a w e, fst (g a w) <> Err e) -> forall w e, fst (forEach g l w) <> Err e.
Proof.
  intros Hg. induction l as [|a l IH]; intros w e; simpl; [discriminate|].
  unfold bind. specialize (Hg a w). destruct (g a w) as [[b|e'|] w1]; simpl in *.
  - specialize (IH w1). destruct (forEach g l w1) as [[bs|e''|] w2]; simpl in *;
      [discriminate | apply IH | discriminate].
  - exfalso. apply (Hg e'). reflexivity.
  - discriminate.
Qed.

Lemma ReadDir_here_no_error E d w e : fst (ReadDir E d "" w) <> Err e.
Proof.
  rewrite ReadDir_eq. destruct (decide _) as [_|Hne]; [|contradiction].
  unfold bind at 1. unfold loadDir. destruct (dnodes w !! d) as [n|]; [|discriminate].
  unfold bind at 1.
  pose proof (forEach_no_error (fun kf : string * ptr => let* h := openR (snd kf) in statHandle h)
                (rangeOrder E (files n))) as Hfs.
  match type of Hfs with ?P -> _ => assert (H1 : P) end.
  { intros a w0 e0. unfold bind, openR, bind, loadFile.
    destruct (fnodes w0 !! a.2) as [fl|] eqn:Hfl; simpl; [|discriminate].
    unfold statFile, bind, loadFile. simpl. rewrite Hfl. discriminate. }
  specialize (Hfs H1 w). destruct (forEach _ _ w) as [[fs|e1|] w1]; simpl in Hfs;
    [|intros [= <-]; eapply Hfs; reflexivity | discriminate].
  unfold bind at 1.
  pose proof (forEach_no_error (fun kd : string * ptr => Stat (snd kd))
                (rangeOrder E (dirs n))) as Hds.
  match type of Hds with ?P -> _ => assert (H2 : P) end.
  { intros a w0 e0. unfold Stat, bind, loadDir. destruct (dnodes w0 !! a.2); discriminate. }
  specialize (Hds H2 w1). destruct (forEach _ _ w1) as [[ds|e2|] w2]; simpl in Hds;
    [discriminate | intros [= <-]; eapply Hds; reflexivity | discriminate].
Qed.

(** Extra X11.  [ReadDir] on a path lists the directory that [getDir] resolves
    the path to: it is [getDir] followed by [ReadDir] on the empty path
    there.  So its only error is [fs.ErrNotExist], and it returns it exactly
    when [getDir] does; a path that leads to a file is reported as not
    existing. *)
Theorem ReadDir_through_getDir E d name w :
  ReadDir E d name w = (let* D := getDir d name in ReadDir E D "") w /\
  forall e, fst (ReadDir E d name w) = Err e <->
            e = ErrNotExist /\ fst (getDir d name w) = Err ErrNotExist.
Proof.
  split; [apply ReadDir_getDir|]. intros e. rewrite ReadDir_getDir, bind_run.
  destruct (getDir_run d name w) as (r & -> & Hr). destruct r as [D|e'|]; simpl.
  - split; [intros H; exfalso; revert H; apply ReadDir_here_no_error|].
    intros [_ H]; discriminate.
  - simpl in Hr. subst e'. split; [intros [= <-]; auto | intros [-> _]; reflexivity].
  - split; [discriminate | intros [_ H]; discriminate].
Qed.

(** Extra X12.  One separator after a path whose last segment is not empty
    makes no difference to [getDir] and [ReadDir]: they resolve and list the
    same directory with it as without it. *)
Theorem trailing_separator_ignored E d p w :
  List.last (Split p separator) "" <> "" ->
  getDir d (p ++ "/") w = getDir d p w /\
  ReadDir E d (p ++ "/") w = ReadDir E d p w.
Proof.
  intros Hlast. pose proof (getDir_trailing d p w Hlast) as Hg.
  split; [exact Hg|]. rewrite !ReadDir_getDir, !bind_run, Hg. reflexivity.
Qed.

(** *** The directories that [MkdirAll] makes *)

Lemma mkdirStep_new E f s perm w c nc :
  dnodes w !! c = None ->
  dnodes (snd (mkdirStep E f s perm w)) !! c = Some nc ->
  nc = newDir s (clock E (ticks w)) perm /\ ticks w < ticks (snd (mkdirStep E f s perm w)).
Proof.
  intros Hnew. rewrite mkdirStep_run.
  destruct (dnodes w !! f) as [n|] eqn:Hf; [|simpl; congruence].
  assert (Hne : f <> c) by congruence.
  destruct (decide _); [simpl; congruence|].
  destruct (dirs n !! s); cbv zeta; simpl.
  - rewrite lookup_insert_ne by exact Hne. congruence.
  - rewrite lookup_insert_ne by exact Hne.
    destruct (decide (fresh (dom (dnodes w)) = c)) as [->|Hne'].
    + rewrite lookup_insert_eq. intros [= <-]. split; [reflexivity | lia].
    + rewrite lookup_insert_ne by exact Hne'. congruence.
Qed.

Lemma first_in_Split path : In (first path) (Split path separator).
Proof.
  unfold first. destruct (Split_cons path separator) as (h & t & ->). left. reflexivity.
Qed.

Lemma rest_in_Split path x :
  ~ single path -> In x (Split (rest path) separator) -> In x (Split path separator).
Proof. intros Hmulti Hin. rewrite (Split_multi path Hmulti). right. exact Hin. Qed.

(** Extra X13.  Every directory node that a call of [MkdirAll] makes, at
    whatever depth and whatever the call returns, is named by a segment of
    the path, has size 256, the directory flag and the mode given to the
    call, no child file, and a modification time read from the clock during
    the call. *)
Theorem MkdirAll_new_directories E perm path : forall f w c nc,
  dnodes w !! c = None ->
  dnodes (snd (MkdirAll E f path perm w)) !! c = Some nc ->
  In (name (dir_info nc)) (Split path separator) /\
  size (dir_info nc) = 256%Z /\ isDir (dir_info nc) = true /\
  mode (dir_info nc) = perm /\ files nc = ∅ /\
  readDuring E w (snd (MkdirAll E f path perm w)) (modified (dir_info nc)).
Proof.
  induction path as [path IH] using path_ind. intros f w c nc Hnew.
  rewrite MkdirAll_eq, bind_run.
  pose proof (mkdirStep_new E f (first path) perm w c) as Hstep.
  pose proof (mkdirStep_keeps E f (first path) perm w) as (_ & Hticks & _).
  assert (Hhere : forall w1, ticks w < ticks w1 ->
            nc = newDir (first path) (clock E (ticks w)) perm ->
            In (name (dir_info nc)) (Split path separator) /\
            size (dir_info nc) = 256%Z /\ isDir (dir_info nc) = true /\
            mode (dir_info nc) = perm /\ files nc = ∅ /\
            readDuring E w w1 (modified (dir_info nc))).
  { intros w1 Ht ->. simpl. split; [apply first_in_Split|]. repeat split.
    exists (ticks w). split; [lia | reflexivity]. }
  destruct (mkdirStep E f (first path) perm w) as [[[]|e|] w1]; simpl in Hstep, Hticks |- *;
    [|intros H; destruct (Hstep nc Hnew H); auto..].
  destruct (decide (single path)) as [|Hmulti];
    [intros H; destruct (Hstep nc Hnew H); auto|].
  unfold bind, loadDir. destruct (dnodes w1 !! f) as [n|];
    [|intros H; destruct (Hstep nc Hnew H); auto].
  destruct (dirs n !! first path) as [c0|];
    [|intros H; destruct (Hstep nc Hnew H); auto].
  pose proof (MkdirAll_rel E perm (rest path) c0 w1) as [Ht2 Hrel].
  pose proof (MkdirAll_keeps E perm (rest path) c0 w1) as (_ & _ & Hkeep).
  intros Hc. destruct (dnodes w1 !! c) as [n1|] eqn:Hc1.
  - destruct (Hstep n1 Hnew eq_refl) as [-> Ht1].
    destruct (Hrel c _ Hc1) as (n' & Hn' & _ & Hid & Hmod).
    destruct (Hkeep c _ Hc1) as (n'' & Hn'' & _ & Hfiles).
    rewrite Hc in Hn', Hn''. injection Hn' as <-. injection Hn'' as <-.
    destruct Hid as (Hname & Hsize & Hdir & Hmode). simpl in *.
    rewrite Hname, Hsize, Hdir, Hmode, Hfiles.
    split; [apply first_in_Split|]. repeat split.
    destruct Hmod as [->|Hmod].
    + exists (ticks w). split; [lia | reflexivity].
    + eapply readDuring_widen; [exact Hticks | | exact Hmod]. lia.
  - destruct (IH (rest path) (not_single_rest_shorter path Hmulti) c0 w1 c nc Hc1 Hc)
      as (Hin & Hsize & Hdir & Hmode & Hfiles & Hmod).
    split; [apply rest_in_Split; assumption|]. repeat split; try assumption.
    eapply readDuring_widen; [exact Hticks | | exact Hmod]. lia.
Qed.

(** *** A separator in front *)

Lemma Split_leading q : Split (String separator q) separator = "" :: Split q separator.
Proof. rewrite Split_String. reflexivity. Qed.

(** Extra X14.  [getFile] passes over a separator in front of the path: it
    resolves the first, empty, segment with [getDir], which takes the empty
    name for the directory itself.  [getDir] and [ReadDir] do not: they look
    the empty segment up among the child directories, and fail with
    [fs.ErrNotExist] where there is no child directory with the empty name.
    So [Open] finds the file or fails; it finds no directory. *)
Theorem leading_separator E d q w :
  getFile d ("/" ++ q) w = getFile d q w /\
  (forall n, dnodes w !! d = Some n -> dirs n !! "" = None ->
     getDir d ("/" ++ q) w = (Err ErrNotExist, w) /\
     ReadDir E d ("/" ++ q) w = (Err ErrNotExist, w) /\
     (forall f, getFile d q w = (OK f, w) -> Open d ("/" ++ q) w = openR f w) /\
     (fst (getFile d q w) = Err ErrNotExist ->
      Open d ("/" ++ q) w = (Err (notFound ("/" ++ q)), w))).
Proof.
  change ("/" ++ q) with (String separator q).
  assert (Hfirst : first (String separator q) = "").
  { unfold first. rewrite Split_leading. reflexivity. }
  assert (Hrest : rest (String separator q) = q).
  { unfold rest. rewrite Split_leading. simpl tail. apply Join_Split. }
  assert (Hmulti : ~ single (String separator q)).
  { unfold single. rewrite Split_leading.
    destruct (Split_cons q separator) as (h & t & ->). simpl. lia. }
  assert (HgF : getFile d (String separator q) w = getFile d q w).
  { rewrite (getFile_eq d (String separator q)).
    destruct (decide _) as [|_]; [contradiction|].
    rewrite Hfirst, Hrest, bind_run, getDir_eq. reflexivity. }
  split; [exact HgF|]. intros n Hd Hnone.
  assert (HgD : getDir d (String separator q) w = (Err ErrNotExist, w)).
  { rewrite getDir_eq. destruct (decide _) as [|_]; [discriminate|].
    rewrite Hfirst. unfold bind, loadDir. rewrite Hd, Hnone. reflexivity. }
  split; [exact HgD|]. split.
  { rewrite ReadDir_getDir, bind_run, HgD. reflexivity. }
  destruct (multi_not_current _ Hmulti) as [H1 H2].
  rewrite (Open_eq d _ w H1 H2), HgF, HgD. split.
  - intros f ->. reflexivity.
  - destruct (getFile_run d q w) as (r & -> & _). simpl. intros ->. reflexivity.
Qed.

(** ** Witnesses and counterexamples *)

(** Witness of C1: the file written at [a/b/c.txt] is read back. *)
Lemma WriteFile_Open_roundtrip_witness :
  exists h, Open rootPtr "a/b/c.txt" treeABfile = (OK h, treeABfile) /\
            forall k, readAll h k [] = OK hello.
Proof.
  apply (WriteFile_Open_roundtrip stdEnv rootPtr "a/b/c.txt" hello 420%N treeAB treeABfile).
  - discriminate.
  - discriminate.
  - simpl. repeat constructor; discriminate.
  - vm_compute. reflexivity.
Defined.

(** C1 as stated fails.  [WriteFile "."] succeeds and makes a file named
    ["."], but [Open "."] returns the directory, which cannot be read; and
    [WriteFile "a//b"] writes into the directory with the empty name inside
    [a], where [Open "a//b"] does not look. *)
Lemma roundtrip_fails_on_dot :
  WriteFile stdEnv rootPtr "." hello 420%N emptyRoot = (OK tt, dotWorld) /\
  Open rootPtr "." dotWorld = (OK (HDir rootPtr), dotWorld) /\
  readAll (HDir rootPtr) 0 [] = Err ErrInvalid /\
  WriteFile stdEnv rootPtr "a//b" hello 420%N slashDirs = (OK tt, slashWorld) /\
  Open rootPtr "a//b" slashWorld = (Err (notFound "a//b"), slashWorld).
Proof. vm_compute. repeat split. Qed.

(** C2 as stated fails: after [MkdirAll "a"], [WriteFile "a"] succeeds and
    leaves the name [a] in both child maps of the root. *)
Lemma WriteFile_breaks_treeOK :
  bool_decide (treeOK dirA) = true /\
  WriteFile stdEnv rootPtr "a" hello 420%N dirA = (OK tt, fileOverDir) /\
  bool_decide (treeOK fileOverDir) = false.
Proof. vm_compute. repeat split. Qed.

(** Witness of C2: [WriteFile "a/f"] after [MkdirAll "a"]. *)
Lemma calls_preserve_treeOK_witness :
  treeOK (after stdEnv (CallWriteFile "a/f" hello 420%N) rootPtr dirA).
Proof.
  apply calls_preserve_treeOK.
  - apply (bool_decide_unpack _). vm_compute. exact I.
  - simpl. intros (D & n & Hwalk & Hn & [c Hc]).
    vm_compute in Hwalk. injection Hwalk as <-.
    vm_compute in Hn. injection Hn as <-.
    vm_compute in Hc. discriminate Hc.
Defined.

(** Witness of C3: [MkdirAll "x/y"] where [x] is a file. *)
Lemma MkdirAll_over_file_witness :
  MkdirAll stdEnv rootPtr "x/y" 493%N fileX = (Err ErrExist, fileX).
Proof.
  eapply MkdirAll_over_file.
  - reflexivity.
  - eexists. reflexivity.
Defined.

(** Witness of C4: [WriteFile "nodir/f"] on the empty root. *)
Lemma WriteFile_missing_dir_witness :
  WriteFile stdEnv rootPtr "nodir/f" hello 420%N emptyRoot = (Err ErrNotExist, emptyRoot).
Proof.
  eapply WriteFile_missing_dir.
  - unfold single. simpl. discriminate.
  - reflexivity.
  - reflexivity.
Defined.

(** Witness of C5: a file [x] and a directory [y], made in either order,
    are listed as [x], [y]; the listing is the same under another order of
    iteration. *)
Lemma ReadDir_lists_children_witness :
  (exists es,
     ReadDir stdEnv rootPtr "" xyWorld = (OK es, xyWorld) /\
     length es = 2 /\ StronglySorted nameLe es /\
     ReadDir revEnv rootPtr "" xyWorld = (OK es, xyWorld)) /\
  listedNames (ReadDir stdEnv rootPtr "" xyWorld) = ["x"; "y"] /\
  listedNames (ReadDir stdEnv rootPtr "" yxWorld) = ["x"; "y"].
Proof.
  split; [|vm_compute; split; reflexivity].
  destruct (ReadDir_lists_children stdEnv rootPtr xyWorld (nodeOf xyWorld rootPtr))
    as (es & Hrun & _ & Hlen & Hsorted & Huniq).
  - exact stdEnv_ok.
  - vm_compute. reflexivity.
  - split; apply (bool_decide_unpack _); vm_compute; exact I.
  - vm_compute in Hlen.
    exists es. split; [exact Hrun|]. split; [exact Hlen|]. split; [exact Hsorted|].
    apply Huniq.
    + apply (bool_decide_unpack _). vm_compute. exact I.
    + exact revEnv_ok.
Defined.

(** Witness of C6: [a/x] is neither a file nor a directory; [a/b/c.txt] is a
    file. *)
Lemma Open_lookup_order_witness :
  Open rootPtr "a/x" treeAB = (Err (notFound "a/x"), treeAB) /\
  Open rootPtr "a/b/c.txt" treeABfile = openR 1%positive treeABfile.
Proof.
  split.
  - destruct (Open_lookup_order rootPtr "a/x" treeAB) as [_ H]; [discriminate..|].
    destruct (H ErrNotExist treeAB) as (_ & _ & _ & H2); [vm_compute; reflexivity|].
    destruct (H2 ErrNotExist treeAB) as (_ & _ & H3 & _); [vm_compute; reflexivity|].
    exact H3.
  - destruct (Open_lookup_order rootPtr "a/b/c.txt" treeABfile) as [H _]; [discriminate..|].
    apply H. vm_compute. reflexivity.
Defined.

(** C6 as stated fails at ["."]: when a file of that name exists, [Open]
    does not look for it but returns the directory; and when neither lookup
    resolves ["."], [Open] succeeds all the same. *)
Lemma Open_dot_skips_lookup :
  getFile rootPtr "." dotWorld = (OK 1%positive, dotWorld) /\
  openR 1%positive dotWorld = (OK (HFile (mkReader 1%positive hello 0)), dotWorld) /\
  Open rootPtr "." dotWorld = (OK (HDir rootPtr), dotWorld) /\
  getFile rootPtr "." emptyRoot = (Err ErrNotExist, emptyRoot) /\
  getDir rootPtr "." emptyRoot = (Err ErrNotExist, emptyRoot) /\
  Open rootPtr "." emptyRoot = (OK (HDir rootPtr), emptyRoot).
Proof. vm_compute. repeat split. Qed.

(** C7 as stated fails at empty segments.  In [a/b/] the last segment is the
    key of neither child map of the directory [a/b], yet [getDir] and [Open]
    resolve the path to that directory; in [/x] the leading segment is not
    the key of a child directory of the root, yet [getFile] and [Open]
    resolve the path to the file [x]; and ["."] is the key of neither child
    map of the empty root, yet [Open] resolves it. *)
Lemma resolution_passes_empty_segments :
  files (nodeOf treeAB 3%positive) !! "" = None /\
  dirs (nodeOf treeAB 3%positive) !! "" = None /\
  walk rootPtr ["a"; "b"] treeAB = (OK 3%positive, treeAB) /\
  getDir rootPtr "a/b/" treeAB = (OK 3%positive, treeAB) /\
  Open rootPtr "a/b/" treeAB = (OK (HDir 3%positive), treeAB) /\
  dirs (nodeOf fileX rootPtr) !! "" = None /\
  getFile rootPtr "/x" fileX = (OK 1%positive, fileX) /\
  Open rootPtr "/x" fileX = (OK (HFile (mkReader 1%positive hello 0)), fileX) /\
  files (nodeOf emptyRoot rootPtr) !! "." = None /\
  dirs (nodeOf emptyRoot rootPtr) !! "." = None /\
  Open rootPtr "." emptyRoot = (OK (HDir rootPtr), emptyRoot).
Proof. vm_compute. repeat split. Qed.

(** Witness of C7: in [a/x/y] the directory [x] is missing; in
    [a/b/nofile] the last segment names nothing. *)
Lemma resolution_reads_and_fails_witness :
  snd (Open rootPtr "a/x/y" treeAB) = treeAB /\
  fst (getDir rootPtr "a/x/y" treeAB) = Err ErrNotExist /\
  fst (ReadDir stdEnv rootPtr "a/x/y" treeAB) = Err ErrNotExist /\
  fst (getFile rootPtr "a/x/y" treeAB) = Err ErrNotExist /\
  fst (Open rootPtr "a/x/y" treeAB) = Err (notFound "a/x/y") /\
  fst (Open rootPtr "a/b/nofile" treeAB) = Err (notFound "a/b/nofile").
Proof.
  destruct (resolution_reads_and_fails stdEnv rootPtr "a/x/y" treeAB) as [(Hro & _) [Hmid _]].
  destruct (resolution_reads_and_fails stdEnv rootPtr "a/b/nofile" treeAB) as [_ [_ Hfin]].
  split; [exact Hro|].
  edestruct (Hmid ["a"] "x" ["y"]) as (H1 & H2 & H3);
    [reflexivity | discriminate | reflexivity | reflexivity | reflexivity |].
  destruct H3 as [H3 H4]; [repeat constructor; discriminate|].
  split; [exact H1|]. split; [exact H2|]. split; [exact H3|]. split; [exact H4|].
  edestruct (Hfin ["a"; "b"] "nofile") as (_ & _ & H5);
    [reflexivity | discriminate | reflexivity | reflexivity | reflexivity | reflexivity |].
  destruct H5 as [_ H5]; [repeat constructor; discriminate|].
  apply H5. discriminate.
Defined.

(** C8 as stated fails: on the empty root [MkdirAll] makes a child
    directory, and [WriteFile] a child file, whose key is [""] or ["."]; and
    [ReadDir "."] does not list the root. *)
Lemma MkdirAll_creates_literal_names :
  (exists w' n c, MkdirAll stdEnv rootPtr "" 493%N emptyRoot = (OK tt, w') /\
                  dnodes w' !! rootPtr = Some n /\ dirs n !! "" = Some c) /\
  (exists w' n c, MkdirAll stdEnv rootPtr "." 493%N emptyRoot = (OK tt, w') /\
                  dnodes w' !! rootPtr = Some n /\ dirs n !! "." = Some c) /\
  (exists w' n c, WriteFile stdEnv rootPtr "" hello 420%N emptyRoot = (OK tt, w') /\
                  dnodes w' !! rootPtr = Some n /\ files n !! "" = Some c) /\
  (exists w' n c, WriteFile stdEnv rootPtr "." hello 420%N emptyRoot = (OK tt, w') /\
                  dnodes w' !! rootPtr = Some n /\ files n !! "." = Some c) /\
  ReadDir stdEnv rootPtr "." emptyRoot = (Err ErrNotExist, emptyRoot).
Proof.
  repeat split; try (eexists _, _, _; vm_compute; repeat split).
Qed.

(** Witness of C8, on the empty root. *)
Lemma current_node_paths_witness :
  Open rootPtr "." emptyRoot = (OK (HDir rootPtr), emptyRoot) /\
  getDir rootPtr "." emptyRoot = (Err ErrNotExist, emptyRoot) /\
  (exists w' n', MkdirAll stdEnv rootPtr "." 493%N emptyRoot = (OK tt, w') /\
                 dnodes w' !! rootPtr = Some n' /\ is_Some (dirs n' !! ".")) /\
  (exists w' n' f fl, WriteFile stdEnv rootPtr "" hello 420%N emptyRoot = (OK tt, w') /\
                 dnodes w' !! rootPtr = Some n' /\ files n' !! "" = Some f /\
                 fnodes w' !! f = Some fl /\ bytes (content fl) = hello /\
                 name (file_info fl) = "").
Proof.
  edestruct (current_node_paths stdEnv rootPtr emptyRoot) as ((_ & H1) & _ & H2 & H3 & H4);
    [reflexivity|].
  split; [exact H1|]. split; [apply H2; reflexivity|].
  split; [apply H3; [right; reflexivity | reflexivity]|].
  apply H4; [left; reflexivity | reflexivity].
Defined.

(** Witness of C9: [MkdirAll "a/b"] on the empty root. *)
Lemma MkdirAll_sets_times_witness :
  exists n', dnodes treeAB !! rootPtr = Some n' /\
             readDuring stdEnv emptyRoot treeAB (modified (dir_info n')) /\
             exists c nc, dirs n' !! "a" = Some c /\ dnodes treeAB !! c = Some nc /\
                          mode (dir_info nc) = 493%N /\ isDir (dir_info nc) = true /\
                          size (dir_info nc) = 256%Z.
Proof.
  destruct (MkdirAll_sets_times stdEnv rootPtr "a/b" 493%N emptyRoot treeAB)
    as (n & n' & Hn & Hn' & _ & Hmod & Hchild); [vm_compute; reflexivity|].
  vm_compute in Hn. injection Hn as <-. simpl in Hchild.
  destruct Hchild as (c & nc & Hc & _ & Hnc & _ & Hsize & Hdir & Hmode & _).
  exists n'. split; [exact Hn'|]. split; [exact Hmod|].
  exists c, nc. auto.
Defined.

(** Witness of C10: [a/b/] opens the directory [a/b], which holds no file
    with the empty name. *)
Lemma Open_trailing_separator_witness :
  Open rootPtr ("a/b" ++ "/") treeAB = (OK (HDir 3%positive), treeAB).
Proof.
  apply Open_trailing_separator.
  - simpl. discriminate.
  - vm_compute. reflexivity.
  - rewrite (getFile_trailing rootPtr "a/b" treeAB 3%positive (nodeOf treeAB 3%positive)).
    + vm_compute. reflexivity.
    + simpl. repeat constructor; discriminate.
    + vm_compute. reflexivity.
    + vm_compute. reflexivity.
Defined.

(** C10 as stated fails.  The root is the directory at the path [""], but
    [Open "/"] finds nothing; and when the directory [a] holds a file with
    the empty name, [Open "a/"] returns that file, not the directory. *)
Lemma trailing_separator_fails :
  getDir rootPtr "" emptyRoot = (OK rootPtr, emptyRoot) /\
  Open rootPtr ("" ++ "/") emptyRoot = (Err (notFound "/"), emptyRoot) /\
  getDir rootPtr "a" emptyNameFile = (OK 2%positive, emptyNameFile) /\
  Open rootPtr ("a" ++ "/") emptyNameFile =
    (OK (HFile (mkReader 1%positive hello 0)), emptyNameFile).
Proof. vm_compute. repeat split. Qed.

(** Witness of X1: [a/b] after [MkdirAll "a/b"] on the empty root. *)
Lemma MkdirAll_then_resolves_witness :
  exists D, getDir rootPtr "a/b" treeAB = (OK D, treeAB) /\
            getFile rootPtr "a/b" treeAB = (Err ErrNotExist, treeAB) /\
            ("a/b" <> "." -> Open rootPtr "a/b" treeAB = (OK (HDir D), treeAB)).
Proof.
  apply (MkdirAll_then_resolves stdEnv rootPtr "a/b" 493%N emptyRoot treeAB).
  - vm_compute. reflexivity.
  - simpl. repeat constructor; discriminate.
Defined.

(** Witness of X3: [MkdirAll "a/b"] a second time, with another mode. *)
Lemma MkdirAll_again_witness :
  exists w2, MkdirAll stdEnv rootPtr "a/b" 420%N treeAB = (OK tt, w2) /\ onlyTimes treeAB w2.
Proof.
  apply (MkdirAll_again stdEnv rootPtr "a/b" 493%N 420%N emptyRoot treeAB).
  vm_compute. reflexivity.
Defined.

(** Witness of X8: [WriteFile "a/zz/f"] where [a] has no directory [zz]. *)
Lemma WriteFile_missing_below_witness :
  WriteFile stdEnv rootPtr "a/zz/f" hello 420%N treeAB = (Err ErrNotExist, treeAB).
Proof.
  apply (WriteFile_missing_below stdEnv rootPtr "a/zz/f" hello 420%N treeAB
           ["a"] "zz" ["f"] 2%positive (nodeOf treeAB 2%positive)).
  - reflexivity.
  - discriminate.
  - vm_compute. reflexivity.
  - vm_compute. reflexivity.
  - vm_compute. reflexivity.
Defined.

(** Witness of X9: [WriteFile "a/b/c.txt"] after [MkdirAll "a/b"]. *)
Lemma WriteFile_creates_file_witness :
  exists c w',
    WriteFile stdEnv rootPtr "a/b/c.txt" hello 420%N treeAB = (OK tt, w') /\
    fnodes treeAB !! c = None /\
    fnodes w' =
      <[c := mkFile (mkInfo "c.txt" (Z.of_nat (length hello)) (clock stdEnv (ticks treeAB))
                            false 420%N)
                    (mkBuffer hello (Nat.max (bufferSize stdEnv) (length hello)))]>
        (fnodes treeAB) /\
    dnodes w' =
      <[3%positive := mkDir (dir_info (nodeOf treeAB 3%positive))
                            (dirs (nodeOf treeAB 3%positive))
                            (<["c.txt" := c]> (files (nodeOf treeAB 3%positive)))]>
        (dnodes treeAB) /\
    ticks w' = S (ticks treeAB).
Proof.
  apply (WriteFile_creates_file stdEnv rootPtr "a/b/c.txt" hello 420%N treeAB
           ["a"; "b"] "c.txt" 3%positive (nodeOf treeAB 3%positive)).
  - reflexivity.
  - vm_compute. reflexivity.
  - vm_compute. reflexivity.
  - vm_compute. reflexivity.
Defined.

(** Witness of X10: [a/b] is still the directory it was after a file has
    been written under the same path. *)
Lemma calls_keep_paths_witness :
  getDir rootPtr "a/b" (after stdEnv (CallWriteFile "a/b" hello 420%N) rootPtr treeAB)
  = (OK 3%positive, after stdEnv (CallWriteFile "a/b" hello 420%N) rootPtr treeAB).
Proof.
  apply (proj1 (calls_keep_paths stdEnv (CallWriteFile "a/b" hello 420%N)
                  rootPtr treeAB rootPtr "a/b")).
  vm_compute. reflexivity.
Defined.

(** Witness of X13: the directory [b] that [MkdirAll "a/b"] makes inside the
    new directory [a]. *)
Lemma MkdirAll_new_directories_witness :
  In (name (dir_info (nodeOf treeAB 3%positive))) (Split "a/b" separator) /\
  size (dir_info (nodeOf treeAB 3%positive)) = 256%Z /\
  isDir (dir_info (nodeOf treeAB 3%positive)) = true /\
  mode (dir_info (nodeOf treeAB 3%positive)) = 493%N /\
  files (nodeOf treeAB 3%positive) = ∅ /\
  readDuring stdEnv emptyRoot (snd (MkdirAll stdEnv rootPtr "a/b" 493%N emptyRoot))
             (modified (dir_info (nodeOf treeAB 3%positive))).
Proof.
  apply (MkdirAll_new_directories stdEnv 493%N "a/b" rootPtr emptyRoot 3%positive
           (nodeOf treeAB 3%positive)).
  - vm_compute. reflexivity.
  - vm_compute. reflexivity.
Defined.

(** Witness of X12: [a/b/] and [a/b] after [MkdirAll "a/b"]. *)
Lemma trailing_separator_ignored_witness :
  getDir rootPtr ("a/b" ++ "/") treeAB = getDir rootPtr "a/b" treeAB /\
  ReadDir stdEnv rootPtr ("a/b" ++ "/") treeAB = ReadDir stdEnv rootPtr "a/b" treeAB.
Proof.
  apply (trailing_separator_ignored stdEnv rootPtr "a/b" treeAB).
  vm_compute. discriminate.
Defined.

(** Witness of X14: [/x] where [x] is a file of the root. *)
Lemma leading_separator_witness :
  getDir rootPtr ("/" ++ "x") fileX = (Err ErrNotExist, fileX) /\
  ReadDir stdEnv rootPtr ("/" ++ "x") fileX = (Err ErrNotExist, fileX) /\
  (forall f, getFile rootPtr "x" fileX = (OK f, fileX) ->
             Open rootPtr ("/" ++ "x") fileX = openR f fileX) /\
  (fst (getFile rootPtr "x" fileX) = Err ErrNotExist ->
   Open rootPtr ("/" ++ "x") fileX = (Err (notFound ("/" ++ "x")), fileX)).
Proof.
  apply (proj2 (leading_separator stdEnv rootPtr "x" fileX) (nodeOf fileX rootPtr)).
  - vm_compute. reflexivity.
  - vm_compute. reflexivity.
Defined.
